(** * The receiver side of the TFTP server (package sftp)

    A shallow embedding of [receiver.go] and of [Server.handlePacket],
    together with the properties of the receiver session that the
    specification states: option acceptance, the retry loop, the address
    filter and the locking of the transfer identifier, termination,
    abort, and the life of the session socket.

    Conventions.  A Go [int], [uint16] or [time.Duration] is a [Z]; a byte
    is a [Z] in [0, 256); a [[]byte] is a list of bytes whose length is
    the length (and capacity) of the slice; a Go [map[string]string] is a
    [gmap string string], and a map that may be [nil] is an [option] of
    one.  Functions of the receiver are state transformers over the
    receiver struct and the state of the network around its socket. *)

From Stdlib Require Import ZArith List String Ascii Bool Lia.
From stdpp Require Import base option list strings pretty gmap fin_maps.
Import ListNotations.

Local Open Scope Z_scope.

(** ** Bytes and slices *)

Abbreviation bytes := (list Z).
Abbreviation options := (gmap string string).

Definition len {A} (b : list A) : Z := Z.of_nat (length b).

(** [make([]byte, n)]: [n] zero bytes. *)
Definition make (n : Z) : bytes := repeat 0 (Z.to_nat n).

(** [b[lo:hi]].  Go panics unless [0 <= lo <= hi <= cap(b)]; every slice
    of the receiver is made by [make], so its capacity is its length.
    [None] stands for the panic. *)
Definition slice (b : bytes) (lo hi : Z) : option bytes :=
  if (0 <=? lo) && (lo <=? hi) && (hi <=? len b)
  then Some (firstn (Z.to_nat (hi - lo)) (skipn (Z.to_nat lo) b))
  else None.

(** [copy(dst, src)]: the first [min(len dst, len src)] bytes of [dst] are
    replaced, the rest of [dst] stays. *)
Definition copy (dst src : bytes) : bytes :=
  firstn (length dst) src ++ skipn (length src) dst.

(** [binary.BigEndian.PutUint16(b[lo:lo+2], v)], writing through to [b].
    [None] when the slice expression panics. *)
Definition PutUint16 (b : bytes) (lo : Z) (v : Z) : option bytes :=
  match slice b lo (lo + 2) with
  | None => None
  | Some _ =>
      Some (firstn (Z.to_nat lo) b
              ++ [Z.land (Z.shiftr v 8) 255; Z.land v 255]
              ++ skipn (Z.to_nat lo + 2) b)
  end.

(** ** Errors

    The retry loop tells errors apart by one test only, the type assertion
    [err.(net.Error)].  The errors of the socket ([*net.OpError], and
    [syscall.EINVAL] for a nil connection) pass it; the errors made by
    [fmt.Errorf] and by [strconv] do not. *)

Inductive error : Type :=
  | NetErr (timeout : bool) (msg : string)
  | Errorf (msg : string).

Definition isNetError (e : error) : bool :=
  match e with NetErr _ _ => true | Errorf _ => false end.

(** [err.Error()] *)
Definition Error (e : error) : string :=
  match e with NetErr _ m => m | Errorf m => m end.

Definition errTimeout : error := NetErr true "i/o timeout".
Definition errClosed : error := NetErr false "use of closed network connection".
Definition errInvalid : error := NetErr false "invalid argument".
Definition errSend : error := NetErr false "sendto: network is unreachable".
Definition errRead : error := NetErr false "recvfrom: connection refused".

(** ** strconv.Atoi

    An optional sign followed by one or more decimal digits, the value
    within the range of a 64-bit [int]; anything else is an error. *)

Definition is_digit (c : ascii) : bool :=
  (48 <=? Z.of_nat (nat_of_ascii c)) && (Z.of_nat (nat_of_ascii c) <=? 57).

Fixpoint digits_value (s : string) (acc : Z) : option Z :=
  match s with
  | EmptyString => Some acc
  | String c s' =>
      if is_digit c
      then digits_value s' (10 * acc + (Z.of_nat (nat_of_ascii c) - 48))
      else None
  end.

Definition minInt : Z := - 2 ^ 63.
Definition maxInt : Z := 2 ^ 63 - 1.

Definition Atoi (s : string) : error + Z :=
  let bad := inl (Errorf ("strconv.Atoi: parsing " +:+ s +:+ ": invalid syntax")) in
  let range := inl (Errorf ("strconv.Atoi: parsing " +:+ s +:+ ": value out of range")) in
  match s with
  | EmptyString => bad
  | String c rest =>
      let neg := Ascii.eqb c "-" in
      let body := if neg || Ascii.eqb c "+" then rest else s in
      match body with
      | EmptyString => bad
      | _ =>
          match digits_value body 0 with
          | None => bad
          | Some v =>
              let n := if neg then - v else v in
              if (minInt <=? n) && (n <=? maxInt) then inr n else range
          end
      end
  end.

(** ** Constants and helpers declared outside [receiver.go] *)

(** Modelled from the spec: the constants [defaultBlockSize] and
    [maxBlockSize] ("[blksize] in [512, 65464]"), [datagramLength]
    ("default datagram length is 516 bytes") and the opcodes
    ("RRQ=1, WRQ=2, DATA=3, ACK=4, ERROR=5, OACK=6") are declared in
    files that are not part of the sources at hand. *)
Definition defaultBlockSize : Z := 512.
Definition maxBlockSize : Z := 65464.
Definition datagramLength : Z := 516.
Definition opRRQ : Z := 1.
Definition opWRQ : Z := 2.
Definition opDATA : Z := 3.
Definition opACK : Z := 4.
Definition opERROR : Z := 5.
Definition opOACK : Z := 6.

(** Modelled from the spec: the type [backoff] with [reset], [count] and
    [backoff] ("count increments on each [backoff()] and is readable by
    the session transport") is declared in a file that is not part of the
    sources at hand.  The sleep itself has no effect on the receiver. *)
Record backoff : Type := mkBackoff {
  attempt : Z;
  handler : option (Z -> Z)
}.

Definition backoff_reset (b : backoff) : backoff :=
  {| attempt := 0; handler := handler b |}.
Definition backoff_count (b : backoff) : Z := attempt b.
Definition backoff_backoff (b : backoff) : backoff :=
  {| attempt := attempt b + 1; handler := handler b |}.

(** The packet types are byte slices told apart by their opcode; the type
    switch of the receiver sees which one [parsePacket] returned. *)
Inductive packet : Type :=
  | pRRQ (p : bytes)
  | pWRQ (p : bytes)
  | pDATA (p : bytes)
  | pACK (p : bytes)
  | pOACK (p : bytes)
  | pERROR (p : bytes).

(** The packet codec lives in a file that is not part of the sources at
    hand.  The receiver is modelled over any codec; what the receiver
    does never depends on more than the results of these calls.  The two
    packing functions write into the buffer they are given and return the
    length of the packet. *)
Class Codec : Type := {
  parsePacket : bytes -> error + packet;
  unpackRQ : bytes -> error + (string * string * option options);
  unpackOACK : bytes -> error + options;
  packOACK : bytes -> options -> bytes * Z;
  packERROR : bytes -> Z -> string -> bytes * Z;
  DATA_block : bytes -> Z;
  ERROR_code : bytes -> Z;
  ERROR_message : bytes -> string
}.

(** ** Addresses *)

Record UDPAddr : Type := mkAddr { IP : bytes; Port : Z }.

Definition v4InV6Prefix : bytes := [0; 0; 0; 0; 0; 0; 0; 0; 0; 0; 255; 255].

Definition bytes_eqb (a b : bytes) : bool := bool_decide (a = b).

(** [net.IP.Equal]: an IPv4 address and the same address in its 16-byte
    form are equal. *)
Definition IP_Equal (ip x : bytes) : bool :=
  if (length ip =? length x)%nat then bytes_eqb ip x
  else if (length ip =? 4)%nat && (length x =? 16)%nat
       then bytes_eqb (firstn 12 x) v4InV6Prefix && bytes_eqb ip (skipn 12 x)
  else if (length ip =? 16)%nat && (length x =? 4)%nat
       then bytes_eqb (firstn 12 ip) v4InV6Prefix && bytes_eqb (skipn 12 ip) x
  else false.

(** ** The receiver and the network around its socket *)

Inductive UDPConn : Type := theConn.

Record receiver : Type := mkReceiver {
  send : bytes;
  receive : bytes;
  addr : UDPAddr;
  conn : option UDPConn;
  localIP : option bytes;
  tid : Z;
  block : Z;
  retry : backoff;
  timeout : Z;
  retries : Z;
  l : Z;
  dally : bool;
  autoTerm : bool;
  mode : string;
  opts : option options
}.

Definition set_send (v : bytes) (r : receiver) : receiver :=
  mkReceiver v (receive r) (addr r) (conn r) (localIP r) (tid r) (block r)
    (retry r) (timeout r) (retries r) (l r) (dally r) (autoTerm r) (mode r) (opts r).
Definition set_receive (v : bytes) (r : receiver) : receiver :=
  mkReceiver (send r) v (addr r) (conn r) (localIP r) (tid r) (block r)
    (retry r) (timeout r) (retries r) (l r) (dally r) (autoTerm r) (mode r) (opts r).
Definition set_conn (v : option UDPConn) (r : receiver) : receiver :=
  mkReceiver (send r) (receive r) (addr r) v (localIP r) (tid r) (block r)
    (retry r) (timeout r) (retries r) (l r) (dally r) (autoTerm r) (mode r) (opts r).
Definition set_tid (v : Z) (r : receiver) : receiver :=
  mkReceiver (send r) (receive r) (addr r) (conn r) (localIP r) v (block r)
    (retry r) (timeout r) (retries r) (l r) (dally r) (autoTerm r) (mode r) (opts r).
Definition set_block (v : Z) (r : receiver) : receiver :=
  mkReceiver (send r) (receive r) (addr r) (conn r) (localIP r) (tid r) v
    (retry r) (timeout r) (retries r) (l r) (dally r) (autoTerm r) (mode r) (opts r).
Definition set_retry (v : backoff) (r : receiver) : receiver :=
  mkReceiver (send r) (receive r) (addr r) (conn r) (localIP r) (tid r) (block r)
    v (timeout r) (retries r) (l r) (dally r) (autoTerm r) (mode r) (opts r).
Definition set_l (v : Z) (r : receiver) : receiver :=
  mkReceiver (send r) (receive r) (addr r) (conn r) (localIP r) (tid r) (block r)
    (retry r) (timeout r) (retries r) v (dally r) (autoTerm r) (mode r) (opts r).
Definition set_opts (v : option options) (r : receiver) : receiver :=
  mkReceiver (send r) (receive r) (addr r) (conn r) (localIP r) (tid r) (block r)
    (retry r) (timeout r) (retries r) (l r) (dally r) (autoTerm r) (mode r) v.

(** What the socket will see on its next reads: a datagram from some
    source, or a failed read (the deadline passed, or another error of
    the socket).  When nothing is left, the deadline passes. *)
Inductive event : Type :=
  | Datagram (src : UDPAddr) (payload : bytes)
  | ReadError (timeout : bool).

(** The network around the one socket of the session: the reads to come,
    the datagrams sent so far (oldest first), the number of calls of
    [Close] on the socket, and which of the sends to come will fail
    ([true]: the send fails; when nothing is left, sends succeed). *)
Record world : Type := mkWorld {
  inbox : list event;
  outbox : list (bytes * UDPAddr);
  closes : nat;
  txfail : list bool
}.

Definition set_inbox (v : list event) (w : world) : world :=
  mkWorld v (outbox w) (closes w) (txfail w).

(** ** Computations of the receiver

    A call returns a value and the new receiver and network, or panics
    (a slice expression out of range), or the loop it runs has used up
    the iterations it was given. *)

Inductive outcome (A : Type) : Type :=
  | Ret (a : A) (r : receiver) (w : world)
  | Panic
  | OutOfFuel.
Arguments Ret {A} a r w.
Arguments Panic {A}.
Arguments OutOfFuel {A}.

Definition M (A : Type) : Type := receiver -> world -> outcome A.

Definition ret {A} (a : A) : M A := fun r w => Ret a r w.
Definition bind {A B} (m : M A) (k : A -> M B) : M B :=
  fun r w =>
    match m r w with
    | Ret a r' w' => k a r' w'
    | Panic => Panic
    | OutOfFuel => OutOfFuel
    end.
Definition panic {A} : M A := fun _ _ => Panic.
Definition get : M receiver := fun r w => Ret r r w.
Definition modify (f : receiver -> receiver) : M unit := fun r w => Ret tt (f r) w.
Definition orPanic {A} (o : option A) : M A :=
  match o with Some a => ret a | None => panic end.

#[global] Instance M_ret : MRet M := @ret.
#[global] Instance M_bind : MBind M := fun A B k m => bind m k.

(** *** The socket *)

Definition isOpen (w : world) : bool := (closes w =? 0)%nat.

(** [r.conn.SetReadDeadline(time.Now().Add(r.timeout))] *)
Definition SetReadDeadline : M (option error) := fun r w =>
  match conn r with
  | None => Ret (Some errInvalid) r w
  | Some _ => if isOpen w then Ret None r w else Ret (Some errClosed) r w
  end.

(** [r.conn.WriteToUDP(b, to)] *)
Definition WriteToUDP (b : bytes) (to : UDPAddr) : M (option error) := fun r w =>
  match conn r with
  | None => Ret (Some errInvalid) r w
  | Some _ =>
      if isOpen w then
        match txfail w with
        | true :: t => Ret (Some errSend) r (mkWorld (inbox w) (outbox w) (closes w) t)
        | false :: t => Ret None r (mkWorld (inbox w) (outbox w ++ [(b, to)]) (closes w) t)
        | [] => Ret None r (mkWorld (inbox w) (outbox w ++ [(b, to)]) (closes w) [])
        end
      else Ret (Some errClosed) r w
  end.

(** [c.Close()], for a connection [c] that is not nil. *)
Definition Close : M unit := fun r w =>
  Ret tt r (mkWorld (inbox w) (outbox w) (S (closes w)) (txfail w)).

(** ** receiver.go *)

(** What [receiveDatagram] and [receiveWithRetry] return. *)
Abbreviation reply := (Z * option UDPAddr * option error)%type.

Section Receiver.
Context {codec : Codec}.

(** [setBlockSize] touches the receive buffer only. *)
Definition setBlockSize (blksize : string) (r : receiver) : option error * receiver :=
  match Atoi blksize with
  | inl err => (Some err, r)
  | inr n =>
      if n <? defaultBlockSize
      then (Some (Errorf ("blksize too small: " +:+ pretty n)), r)
      else if maxBlockSize <? n
      then (Some (Errorf ("blksize tool large: " +:+ pretty n)), r)
      else (None, set_receive (make (n + 4)) r)
  end.

(** [abort]: with a connection, pack an ERROR of code 1 with the text of
    the error into the send buffer and send it; the deferred function
    closes the socket and forgets the connection. *)
Definition abort (err : error) : M (option error) :=
  r ← get;
  match conn r with
  | None => mret None
  | Some _ =>
      let '(buf, n) := packERROR (send r) 1 (Error err) in
      modify (set_send buf);;
      b ← orPanic (slice buf 0 n);
      e ← WriteToUDP b (addr r);
      Close;;
      modify (set_conn None);;
      mret e
  end.

(** The body of the loop over the options of a received OACK: a
    [blksize] that [setBlockSize] accepts resizes the receive buffer,
    everything else is passed over. *)
Definition applyOption (name value : string) (r : receiver) : receiver :=
  if decide (name = "blksize") then (setBlockSize value r).2 else r.

(** The address filter of [receiveDatagram]: a datagram is passed over
    when it is not from the IP of the peer, or when the transfer
    identifier is set and the datagram is from another port. *)
Definition discards (r : receiver) (src : UDPAddr) : bool :=
  negb (IP_Equal (IP src) (IP (addr r)))
  || (negb (tid r =? 0) && negb (Port src =? tid r)).

(** The loop of [receiveDatagram] around [ReadFromUDP].  The read copies
    the datagram into the receive buffer before anything is looked at;
    [c] is the number of bytes copied, so that [r.receive[:c]] is always
    in range. *)
Fixpoint readLoop (inb : list event) (r : receiver) (w : world) : outcome reply :=
  match conn r with
  | None => Ret (0, None, Some errInvalid) r (set_inbox inb w)
  | Some _ =>
  if negb (isOpen w) then Ret (0, None, Some errClosed) r (set_inbox inb w) else
  match inb with
  | [] => Ret (0, None, Some errTimeout) r (set_inbox [] w)
  | ReadError t :: rest =>
      Ret (0, None, Some (if t then errTimeout else errRead)) r (set_inbox rest w)
  | Datagram src payload :: rest =>
      let c := Z.min (len payload) (len (receive r)) in
      let r := set_receive (copy (receive r) payload) r in
      if discards r src then readLoop rest r w
      else
        match parsePacket (firstn (Z.to_nat c) (receive r)) with
        | inl err => Ret (0, Some src, Some err) r (set_inbox rest w)
        | inr p =>
            let r := set_tid (Port src) r in
            match p with
            | pDATA d =>
                if DATA_block d =? block r
                then Ret (c, Some src, None) r (set_inbox rest w)
                else readLoop rest r w
            | pOACK o =>
                if negb (block r =? 1) then readLoop rest r w
                else
                  match unpackOACK o with
                  | inl err =>
                      (abort err;; mret (0, Some src, Some err)) r (set_inbox rest w)
                  | inr os =>
                      let r := map_fold applyOption r os in
                      let r := set_opts (Some os) (set_block 0 r) in
                      Ret (0, Some src, None) r (set_inbox rest w)
                  end
            | pERROR e =>
                Ret (0, Some src,
                     Some (Errorf ("code: " +:+ pretty (ERROR_code e)
                                   +:+ ", message: " +:+ ERROR_message e)))
                    r (set_inbox rest w)
            | _ => readLoop rest r w
            end
        end
  end
  end.

Definition receiveDatagram (l : Z) : M reply :=
  err ← SetReadDeadline;
  match err with
  | Some e => mret (0, None, Some e)
  | None =>
      r ← get;
      b ← orPanic (slice (send r) 0 l);
      err ← WriteToUDP b (addr r);
      match err with
      | Some e => mret (0, None, Some e)
      | None => fun r w => readLoop (inbox w) r w
      end
  end.

Definition isNet (err : option error) : bool :=
  match err with Some e => isNetError e | None => false end.

(** The loop of [receiveWithRetry]; [gas] bounds its iterations. *)
Fixpoint receiveWithRetry_loop (gas : nat) (l : Z) : M reply :=
  match gas with
  | O => fun _ _ => OutOfFuel
  | S g =>
      '(n, a, err) ← receiveDatagram l;
      r ← get;
      if isNet err && (backoff_count (retry r) <? retries r)
      then modify (fun r => set_retry (backoff_backoff (retry r)) r);;
           receiveWithRetry_loop g l
      else mret (n, a, err)
  end.

Definition receiveWithRetry (gas : nat) (l : Z) : M reply :=
  modify (fun r => set_retry (backoff_reset (retry r)) r);;
  receiveWithRetry_loop gas l.

(** The body of the loop of [sendOptions] over [r.opts]: an entry stays
    when its name is [blksize] and [setBlockSize] takes its value. *)
Definition acceptOption (name value : string) (r : receiver) : receiver :=
  if decide (name = "blksize") then
    match setBlockSize value r with
    | (Some _, r') => set_opts (delete name <$> opts r') r'
    | (None, r') => r'
    end
  else set_opts (delete name <$> opts r) r.

Definition acceptOptions (r : receiver) : receiver :=
  match opts r with
  | None => r
  | Some m => map_fold acceptOption r m
  end.

(** [len(r.opts)] *)
Definition lenOpts (r : receiver) : Z :=
  match opts r with None => 0 | Some m => Z.of_nat (size m) end.

Definition sendOptions (gas : nat) : M (option error) :=
  modify acceptOptions;;
  r ← get;
  if 0 <? lenOpts r then
    let '(buf, m) := packOACK (send r) (default ∅ (opts r)) in
    modify (set_send buf);;
    modify (set_block 1);;
    '(ll, _, err) ← receiveWithRetry gas m;
    match err with
    | Some e => abort e;; mret (Some e)
    | None => modify (set_l ll);; mret None
    end
  else mret None.

(** The dallying loop of [terminate], [i] iterations to go. *)
Fixpoint dallyLoop (i : nat) : M (option error) :=
  match i with
  | O => mret (Some (Errorf "dallying termination failed"))
  | S k =>
      '(_, _, err) ← receiveDatagram 4;
      match err with
      | Some _ => mret None
      | None => dallyLoop k
      end
  end.

(** [terminate].  The deferred [Close] is bound to the connection the
    receiver holds when [terminate] starts, and the field [conn] stays as
    it is. *)
Definition terminate : M (option error) :=
  r ← get;
  match conn r with
  | None => mret None
  | Some _ =>
      buf ← orPanic (PutUint16 (send r) 2 (block r));
      modify (set_send buf);;
      res ← (if dally r then dallyLoop 3
             else b ← orPanic (slice buf 0 4);
                  WriteToUDP b (addr r));
      Close;;
      mret res
  end.

Definition wrap64 (z : Z) : Z := (z + 2 ^ 63) mod 2 ^ 64 - 2 ^ 63.

Section WriteTo.
Context {W : Type} (Write : W -> bytes -> Z * option error * W).

(** The first half of the body of the loop of [WriteTo]: a block that
    has been received is written out.  [inr] is the [return] of a failed
    write or of the last block; [inl] goes on to the acknowledgement, with
    the writer and the byte count as they are now. *)
Definition deliver (w : W) (n : Z) : M (W * Z + Z * option error) :=
  r ← get;
  if 0 <? l r then
    payload ← orPanic (slice (receive r) 4 (l r));
    let '(k, err, w') := Write w payload in
    let n' := wrap64 (n + k) in
    match err with
    | Some e => abort e;; mret (inr (n', Some e))
    | None =>
        if l r <? len (receive r)
        then (if autoTerm r then terminate;; mret () else mret ());;
             mret (inr (n', None))
        else mret (inl (w', n'))
    end
  else mret (inl (w, n)).

(** The second half: acknowledge the current block and wait for the next
    one.  [Some] is the [return] of a failed round trip. *)
Definition ackAndWait (gas : nat) (n : Z) : M (option (Z * option error)) :=
  r ← get;
  buf ← orPanic (PutUint16 (send r) 2 (block r));
  modify (set_send buf);;
  modify (set_block ((block r + 1) mod 65536));;
  '(ll, _, err) ← receiveWithRetry gas 4;
  match err with
  | Some e => abort e;; mret (Some (n, Some e))
  | None => modify (set_l ll);; mret None
  end.

(** The loop of [WriteTo]; [fuel] bounds its iterations, [gas] those of
    each retry loop. *)
Fixpoint WriteTo_loop (fuel gas : nat) (w : W) (n : Z) : M (Z * option error) :=
  match fuel with
  | O => fun _ _ => OutOfFuel
  | S f =>
      d ← deliver w n;
      match d with
      | inr res => mret res
      | inl (w', n') =>
          a ← ackAndWait gas n';
          match a with
          | Some res => mret res
          | None => WriteTo_loop f gas w' n'
          end
      end
  end.

Definition WriteTo (fuel gas : nat) (w : W) : M (Z * option error) :=
  r ← get;
  err ← (match opts r with Some _ => sendOptions gas | None => mret None end);
  match err with
  | Some e => abort e;; mret (0, Some e)
  | None =>
      r ← get;
      buf ← orPanic (PutUint16 (send r) 0 opACK);
      modify (set_send buf);;
      WriteTo_loop fuel gas w 0
  end.

End WriteTo.
End Receiver.

(** ** The session task of [Server.handlePacket] *)

(** What a write handler does with the [io.WriterTo] it is given: it
    returns, or it calls [WriteTo] with a writer of its own and goes on
    from the result. *)
Inductive handlerScript : Type :=
  | HReturn (err : option error)
  | HWriteTo {W : Type} (Write : W -> bytes -> Z * option error * W) (w : W)
             (k : Z * option error -> handlerScript).

Section Session.
Context {codec : Codec}.

Fixpoint runHandler (fuel gas : nat) (h : handlerScript) : M (option error) :=
  match h with
  | HReturn err => mret err
  | HWriteTo Write w k =>
      res ← WriteTo Write fuel gas w;
      runHandler fuel gas (k res)
  end.

(** The body of the goroutine started for a WRQ. *)
Definition session (fuel gas : nat) (writeHandler : option (string -> handlerScript))
    (filename : string) : M unit :=
  match writeHandler with
  | Some h =>
      err ← runHandler fuel gas (h filename);
      match err with
      | Some e => abort e;; mret tt
      | None => terminate;; mret tt
      end
  | None =>
      abort (Errorf "server does not support write requests");; mret tt
  end.

End Session.

(** The sender is declared in a file that is not part of the sources at
    hand; its fields are those of the composite literal in
    [handlePacket]. *)
Module Sender.
Record sender : Type := mkSender {
  send : bytes;
  receive : bytes;
  tid : Z;
  conn : option UDPConn;
  retry : backoff;
  timeout : Z;
  retries : Z;
  addr : UDPAddr;
  localIP : option bytes;
  mode : string;
  opts : option options
}.
End Sender.

Module Server.
Record Server : Type := mkServer {
  backoff : option (Z -> Z);
  timeout : Z;
  retries : Z
}.
End Server.

(** What [handlePacket] does with a datagram read on the well-known
    port: it returns an error, or it starts a receiver for a WRQ or a
    sender for an RRQ. *)
Inductive dispatch : Type :=
  | Dropped (err : error)
  | ServeWRQ (filename : string) (wt : receiver)
  | ServeRRQ (filename : string) (rf : Sender.sender).

Section Listener.
Context {codec : Codec}.

(** [listen] is the result of [net.ListenUDP("udp", &net.UDPAddr{})];
    [None] stands for the panic of [buffer[:n]] out of range. *)
Definition handlePacket (s : Server.Server) (listen : error + UDPConn)
    (localAddr : option bytes) (remoteAddr : UDPAddr) (buffer : bytes) (n : Z)
    : option dispatch :=
  match slice buffer 0 n with
  | None => None
  | Some b =>
      Some
        match parsePacket b with
        | inl err => Dropped err
        | inr (pWRQ p) =>
            match unpackRQ p with
            | inl err => Dropped (Errorf ("unpack WRQ: " +:+ Error err))
            | inr (filename, mode, opts) =>
                match listen with
                | inl err => Dropped err
                | inr c =>
                    ServeWRQ filename
                      {| send := make datagramLength;
                         receive := make datagramLength;
                         conn := Some c;
                         retry := {| attempt := 0; handler := Server.backoff s |};
                         timeout := Server.timeout s;
                         retries := Server.retries s;
                         addr := remoteAddr;
                         localIP := localAddr;
                         mode := mode;
                         opts := opts;
                         (* fields the literal leaves at their zero value *)
                         tid := 0; block := 0; l := 0;
                         dally := false; autoTerm := false |}
                end
            end
        | inr (pRRQ p) =>
            match unpackRQ p with
            | inl err => Dropped (Errorf ("unpack RRQ: " +:+ Error err))
            | inr (filename, mode, opts) =>
                match listen with
                | inl err => Dropped err
                | inr c =>
                    ServeRRQ filename
                      {| Sender.send := make datagramLength;
                         Sender.receive := make datagramLength;
                         Sender.tid := Port remoteAddr;
                         Sender.conn := Some c;
                         Sender.retry := {| attempt := 0; handler := Server.backoff s |};
                         Sender.timeout := Server.timeout s;
                         Sender.retries := Server.retries s;
                         Sender.addr := remoteAddr;
                         Sender.localIP := localAddr;
                         Sender.mode := mode;
                         Sender.opts := opts |}
                end
            end
        | inr _ => Dropped (Errorf "unexpected packet")
        end
  end.

End Listener.

(** The network as a session finds it: nothing sent, the socket open. *)
Definition freshWorld (inb : list event) : world :=
  {| inbox := inb; outbox := []; closes := 0; txfail := [] |}.

(** ** A codec for the wire format of the specification *)

Definition string_to_bytes (s : string) : bytes :=
  map (fun c => Z.of_nat (nat_of_ascii c)) (list_ascii_of_string s).
Definition bytes_to_string (b : bytes) : string :=
  string_of_list_ascii (map (fun z => ascii_of_nat (Z.to_nat z)) b).
Definition lower (z : Z) : Z :=
  if (65 <=? z) && (z <=? 90) then z + 32 else z.
Definition uint16_at (b : bytes) (i : nat) : Z :=
  nth i b 0 * 256 + nth (S i) b 0.

Fixpoint untilNUL (b : bytes) : bytes :=
  match b with
  | [] => []
  | x :: b' => if x =? 0 then [] else x :: untilNUL b'
  end.

(** The strings of a packet, each closed by a NUL. *)
Fixpoint cstrings (b cur : bytes) : option (list bytes) :=
  match b with
  | [] => match cur with [] => Some [] | _ => None end
  | x :: b' =>
      if x =? 0 then cons (rev cur) <$> cstrings b' []
      else cstrings b' (x :: cur)
  end.

Fixpoint optionPairs (fs : list bytes) : option (list (string * string)) :=
  match fs with
  | [] => Some []
  | name :: value :: rest =>
      cons (bytes_to_string (map lower name), bytes_to_string value)
        <$> optionPairs rest
  | _ => None
  end.

Definition wireOption (nv : string * string) : bytes :=
  string_to_bytes nv.1 ++ [0] ++ string_to_bytes nv.2 ++ [0].

(** Modelled from the spec: [parsePacket], [unpackRQ], [unpackOACK],
    [packOACK], [packERROR] and the accessors of DATA and ERROR packets
    are defined in the codec file, which is not part of the sources at
    hand.  This instance follows the wire format of the specification
    ("opcode(2) · block(2) · payload", "opcode(2) · code(2) · message · 0",
    "opcode(2) · (name · 0 · value · 0)*", big-endian; "malformed length,
    unknown opcode, missing NUL terminator, odd number of option fields"
    are errors; "option names are normalized to lowercase on parse"). *)
#[global] Instance wireCodec : Codec := {|
  parsePacket b :=
    if len b <? 2 then inl (Errorf "short packet")
    else
      let op := uint16_at b 0 in
      if op =? opRRQ then inr (pRRQ b)
      else if op =? opWRQ then inr (pWRQ b)
      else if op =? opDATA then
        if len b <? 4 then inl (Errorf "short DATA packet") else inr (pDATA b)
      else if op =? opACK then
        if len b <? 4 then inl (Errorf "short ACK packet") else inr (pACK b)
      else if op =? opERROR then
        if len b <? 5 then inl (Errorf "short ERROR packet") else inr (pERROR b)
      else if op =? opOACK then inr (pOACK b)
      else inl (Errorf ("unknown opcode " +:+ pretty op));
  unpackRQ p :=
    match cstrings (skipn 2 p) [] with
    | Some (filename :: mode :: rest) =>
        match rest, optionPairs rest with
        | [], _ => inr (bytes_to_string filename, bytes_to_string mode, None)
        | _, Some kvs =>
            inr (bytes_to_string filename, bytes_to_string mode, Some (list_to_map kvs))
        | _, None => inl (Errorf "odd number of option fields")
        end
    | _ => inl (Errorf "missing NUL terminator")
    end;
  unpackOACK p :=
    match cstrings (skipn 2 p) [] with
    | Some fs =>
        match optionPairs fs with
        | Some kvs => inr (list_to_map kvs)
        | None => inl (Errorf "odd number of option fields")
        end
    | None => inl (Errorf "missing NUL terminator")
    end;
  packOACK buf os :=
    let d := [0; opOACK] ++ concat (map wireOption (map_to_list os)) in
    (copy buf d, len d);
  packERROR buf code message :=
    let d := [Z.land (Z.shiftr code 8) 255; Z.land code 255] in
    let d := [0; opERROR] ++ d ++ string_to_bytes message ++ [0] in
    (copy buf d, len d);
  DATA_block p := uint16_at p 2;
  ERROR_code p := uint16_at p 2;
  ERROR_message p :=
    bytes_to_string (untilNUL (skipn 4 p))
|}.

(** Packets of the peer, as they come over the wire. *)
Definition wireDATA (blk : Z) (payload : bytes) : bytes :=
  [0; opDATA; Z.land (Z.shiftr blk 8) 255; Z.land blk 255] ++ payload.
Definition wireACK (blk : Z) : bytes :=
  [0; opACK; Z.land (Z.shiftr blk 8) 255; Z.land blk 255].
Definition wireERROR (code : Z) (message : string) : bytes :=
  [0; opERROR; Z.land (Z.shiftr code 8) 255; Z.land code 255]
    ++ string_to_bytes message ++ [0].
Definition wireOACK (os : list (string * string)) : bytes :=
  [0; opOACK] ++ concat (map wireOption os).
Definition wireRQ (op : Z) (filename mode : string) (os : list (string * string)) : bytes :=
  [0; op] ++ string_to_bytes filename ++ [0] ++ string_to_bytes mode ++ [0]
    ++ concat (map wireOption os).


(** ** The rest of the server *)








(** The control message of a packet connection; [Dst] may be nil. *)
Record ControlMessage : Type := mkControl { Dst : option bytes }.

(** What one read on the well-known port brings: an error, or a datagram
    with its control message (nil when the platform gives none) and its
    source. *)
Inductive arrival : Type :=
  | ReadFailed (err : error)
  | Arrived (payload : bytes) (control : option ControlMessage) (src : UDPAddr).

Section Requests.
Context {codec : Codec}.

(** [processRequest4] and [processRequest6], which differ in the type of
    the connection only: the datagram is read into a buffer of
    [datagramLength] bytes, and the destination of the control message,
    when there is one, is the local address of the session. *)
Definition processRequest4 (s : Server.Server) (listen : error + UDPConn)
    (a : arrival) : option dispatch :=
  match a with
  | ReadFailed err => Some (Dropped (Errorf ("reading UDP: " +:+ Error err)))
  | Arrived payload control src =>
      let buf := copy (make datagramLength) payload in
      let cnt := Z.min (len payload) (len buf) in
      let localAddr := match control with Some cm => Dst cm | None => None end in
      handlePacket s listen localAddr src buf cnt
  end.

Definition processRequest6 := processRequest4.

(** [processRequest], the fallback without control messages. *)
Definition processRequest (s : Server.Server) (listen : error + UDPConn)
    (a : arrival) : option dispatch :=
  match a with
  | ReadFailed err => Some (Dropped (Errorf ("reading UDP: " +:+ Error err)))
  | Arrived payload _ src =>
      let buf := copy (make datagramLength) payload in
      let cnt := Z.min (len payload) (len buf) in
      handlePacket s listen None src buf cnt
  end.

End Requests.

(** ** Sessions to run the model on *)

Definition peer : UDPAddr := {| IP := [10; 0; 0; 1]; Port := 1234 |}.

(** The receiver [handlePacket] builds for a WRQ from [peer] on a server
    with two retries. *)
Definition newReceiver (os : option options) : receiver :=
  {| send := make datagramLength; receive := make datagramLength;
     addr := peer; conn := Some theConn; localIP := None;
     tid := 0; block := 0; retry := {| attempt := 0; handler := None |};
     timeout := 5000000000; retries := 2; l := 0;
     dally := false; autoTerm := false; mode := "octet"; opts := os |}.

(** A writer that takes every block and keeps it. *)
Definition sink (w : list bytes) (b : bytes) : Z * option error * list bytes :=
  (len b, None, w ++ [b]).

(** A write handler that hands the transfer to [sink] and returns what
    [WriteTo] returned. *)
Definition copyHandler (filename : string) : handlerScript :=
  HWriteTo sink [] (fun res => HReturn res.2).

(** A session whose transfer identifier is locked to the port of
    [peer]. *)
Definition lockedReceiver : receiver := set_tid (Port peer) (newReceiver None).

(** The peer's address with another source port. *)
Definition peerAt (port : Z) : UDPAddr := {| IP := IP peer; Port := port |}.

(** A session that has acknowledged block 0 and waits for block 1. *)
Definition waitingReceiver : receiver := set_block 1 (newReceiver None).

(** Another host. *)
Definition stranger : UDPAddr := {| IP := [10; 0; 0; 2]; Port := 69 |}.

(** A server with two retries, and two requests from [peer] as they are
    read on the well-known port. *)
Definition server : Server.Server :=
  {| Server.backoff := None; Server.timeout := 5000000000; Server.retries := 2 |}.
Definition readRequest : bytes := wireRQ opRRQ "foo" "octet" [].
Definition writeRequest : bytes := wireRQ opWRQ "bar" "octet" [].
Definition readInto (request : bytes) : bytes := copy (make datagramLength) request.

(** The options of a WRQ: a block size the receiver takes, one it does
    not, and options it does not know. *)
Definition someOptions : options :=
  list_to_map [("blksize", "1024"); ("tsize", "0"); ("timeout", "3")].
Definition badOptions : options :=
  list_to_map [("blksize", "100000"); ("tsize", "0")].

(** A dallying receiver that has written out block 1, the last one, and
    is about to acknowledge it. *)
Definition dallyingReceiver : receiver :=
  mkReceiver (wireACK 0 ++ skipn 4 (make datagramLength)) (make datagramLength)
    peer (Some theConn) None (Port peer) 1 {| attempt := 0; handler := None |}
    5000000000 2 7 true false "octet" None.




(** The receiver [server] starts for [writeRequest] when the request was
    sent to the local address [la]. *)
Definition localReceiver (la : option bytes) : receiver :=
  mkReceiver (make datagramLength) (make datagramLength) peer (Some theConn) la 0 0
    {| attempt := 0; handler := None |} 5000000000 2 0 false false "octet" None.

(** A receiver without dallying that has written out block 1, the last
    one. *)
Definition finishedReceiver : receiver :=
  mkReceiver (wireACK 0 ++ skipn 4 (make datagramLength)) (make datagramLength)
    peer (Some theConn) None (Port peer) 1 {| attempt := 0; handler := None |}
    5000000000 2 7 false false "octet" None.

(** A DATA block of 600 bytes, more than the default buffer takes. *)
Definition bigBlock : bytes := wireDATA 1 (repeat 7 600).

(** A receiver that has written out block 65535, a full block, and is
    about to acknowledge it. *)
Definition lastBlockReceiver : receiver :=
  mkReceiver (wireACK 65534 ++ skipn 4 (make datagramLength)) (make datagramLength)
    peer (Some theConn) None (Port peer) 65535 {| attempt := 0; handler := None |}
    5000000000 2 516 false false "octet" None.

(** A writer that fails. *)
Definition brokenPipe (w : unit) (b : bytes) : Z * option error * unit :=
  (0, Some (Errorf "broken pipe"), w).

(** A transfer of 1027 bytes at the default block size: two full blocks
    and a short one. *)
Definition upload : list bytes :=
  [wireDATA 1 (repeat 1 512); wireDATA 2 (repeat 2 512); wireDATA 3 [3; 3; 3]].

(** * What is stated about the receiver

    The predicates and relations the properties below are stated with. *)

(** The fields that no function of the receiver assigns, and the
    transfer identifier once it is set. *)
Definition sameConfig (r r' : receiver) : Prop :=
  addr r' = addr r /\ localIP r' = localIP r /\ timeout r' = timeout r
  /\ retries r' = retries r /\ dally r' = dally r /\ autoTerm r' = autoTerm r
  /\ mode r' = mode r /\ (tid r <> 0 -> tid r' = tid r).

(** The network only moves on: datagrams are added to those sent, reads
    are used up, the socket is never opened again. *)
Definition movesOn (w w' : world) : Prop :=
  (exists more, outbox w' = outbox w ++ more)
  /\ (closes w <= closes w')%nat
  /\ (length (inbox w') <= length (inbox w))%nat.

(** Every call keeps the configuration; every call but the retry loop
    keeps the retry counter as well. *)
Definition Rconfig (x y : receiver * world) : Prop :=
  sameConfig x.1 y.1 /\ movesOn x.2 y.2.

Definition Rretry (x y : receiver * world) : Prop :=
  Rconfig x y /\ retry y.1 = retry x.1.

(** A property of every result a call returns. *)
Definition post {A} (o : outcome A) (Q : A -> receiver -> world -> Prop) : Prop :=
  match o with
  | Ret a r w => Q a r w
  | _ => True
  end.

(** [keeps R m]: whatever [m] returns, the receiver and the network it
    leaves are related by [R] to those it found. *)
Definition keeps (R : relation (receiver * world)) {A} (m : M A) : Prop :=
  forall r w, post (m r w) (fun _ r' w' => R (r, w) (r', w')).

(** Every read to come fails at the deadline. *)
Definition silent (inb : list event) : Prop :=
  Forall (fun ev => ev = ReadError true) inb.

(** The retry counter where the loop leaves it. *)
Definition exhausted (r : receiver) : receiver :=
  set_retry {| attempt := Z.max (attempt (retry r)) (retries r);
               handler := handler (retry r) |} r.

(** A property of what a call returns, for a call that does not run out
    of iterations; a panic ends the task and leaves nothing to state. *)
Definition lands {A} (o : outcome A) (Q : A -> receiver -> world -> Prop) : Prop :=
  match o with
  | Ret a r w => Q a r w
  | Panic => True
  | OutOfFuel => False
  end.



(** The text of the error made for an ERROR packet. *)
Definition peerError {codec : Codec} (p : bytes) : error :=
  Errorf ("code: " +:+ pretty (ERROR_code p) +:+ ", message: " +:+ ERROR_message p).
(** The values of [blksize] the receiver takes: those that [Atoi] parses
    as an integer between [defaultBlockSize] and [maxBlockSize]. *)
Definition acceptable (value : string) : bool :=
  match Atoi value with
  | inr n => (defaultBlockSize <=? n) && (n <=? maxBlockSize)
  | inl _ => false
  end.

(** The options a map is left with: [blksize], when its value is taken. *)
Definition accepted (m : options) : options :=
  filter (fun kv => kv.1 = "blksize" /\ acceptable kv.2 = true) m.

(** An entry of the map is left alone while the loop of [sendOptions]
    runs over the entries [m]: its name is not in [m], or it is the
    [blksize] of [m] with a value that is taken. *)
Definition survives (m : options) (kv : string * string) : bool :=
  match m !! kv.1 with
  | Some v => bool_decide (kv.1 = "blksize") && acceptable v
  | None => true
  end.

(** A call that never uses up the iterations it is given. *)
Definition runs {A} (m : M A) : Prop := forall r w, m r w <> OutOfFuel.

(** What has been sent since [w] begins with the datagram [d] to [to]. *)
Definition startsWith (d : bytes) (to : UDPAddr) (w w' : world) : Prop :=
  exists more, outbox w' = outbox w ++ (d, to) :: more.


(** The datagram is a DATA packet with block number [blk] for a receiver
    whose receive buffer has [n] bytes. *)
Definition isDATA {codec : Codec} (n : nat) (blk : Z) (payload : bytes) : Prop :=
  exists p, parsePacket (firstn n payload) = inr (pDATA p) /\ DATA_block p = blk.

(** A packet the receiver does not wait for: a request, an ACK, a DATA
    packet with another block number than the next one, an OACK when the
    next block is not the first. *)
Definition skipped {codec : Codec} (r : receiver) (p : packet) : Prop :=
  match p with
  | pRRQ _ | pWRQ _ | pACK _ => True
  | pDATA d => DATA_block d <> block r
  | pOACK _ => block r <> 1
  | pERROR _ => False
  end.

(** The connection and the socket go together: a call leaves both as
    they are, or it closes the socket once and forgets the connection. *)
Definition Rsock (x y : receiver * world) : Prop :=
  (conn y.1 = conn x.1 /\ closes y.2 = closes x.2)
  \/ (conn x.1 <> None /\ conn y.1 = None /\ closes y.2 = S (closes x.2)).

(** The same for a receiver that does not terminate by itself. *)
Definition Rplain (x y : receiver * world) : Prop :=
  autoTerm x.1 = false -> autoTerm y.1 = false /\ Rsock x y.

(** What a call sends it sends to the address of the peer, and that
    address stays. *)
Definition Rdest (x y : receiver * world) : Prop :=
  addr y.1 = addr x.1
  /\ exists more, outbox y.2 = outbox x.2 ++ more
                  /\ Forall (fun d => d.2 = addr x.1) more.


(** What the loop of [WriteTo] has counted, and the error it stopped on,
    when the writer is given the payloads [bodies] one after the other,
    starting from the count [n]. *)
Fixpoint writes {W : Type} (Write : W -> bytes -> Z * option error * W)
    (w : W) (n : Z) (bodies : list bytes) : Z * option error :=
  match bodies with
  | [] => (n, None)
  | b :: bs =>
      let '(k, err, w') := Write w b in
      match err with
      | Some e => (wrap64 (n + k), Some e)
      | None => writes Write w' (wrap64 (n + k)) bs
      end
  end.

(** The datagrams are DATA packets with the block numbers from [blk] on,
    modulo 2^16, for a receiver whose receive buffer has [n] bytes. *)
Definition numbered {codec : Codec} (n : nat) (blk : Z) (ps : list bytes) : Prop :=
  forall (i : nat) (p : bytes),
    ps !! i = Some p -> isDATA n ((blk + Z.of_nat i) mod 65536) p.
(** * Properties *)

Ltac munfold :=
  unfold mbind, mret, M_bind, M_ret, bind, ret, get, modify, orPanic, panic in *.

(** ** Buffers *)

Lemma length_copy (dst src : bytes) : length (copy dst src) = length dst.
Proof.
  unfold copy. rewrite length_app, length_take, length_drop. lia.
Qed.

Lemma len_copy (dst src : bytes) : len (copy dst src) = len dst.
Proof. unfold len. by rewrite length_copy. Qed.

(** What [parsePacket] is given, [r.receive[:c]], is the datagram cut to
    the length of the receive buffer, whatever the buffer held. *)
Lemma take_read (buf p : bytes) :
  firstn (Z.to_nat (Z.min (len p) (len buf))) (copy buf p) = firstn (length buf) p.
Proof.
  unfold copy, len. rewrite <- Nat2Z.inj_min, Nat2Z.id.
  destruct (Nat.le_ge_cases (length p) (length buf)) as [Hle|Hge].
  - rewrite Nat.min_l by done.
    rewrite (take_ge p (length buf)) by done.
    rewrite take_app_length. done.
  - rewrite Nat.min_r by done.
    rewrite take_app_le by (rewrite length_take; lia).
    rewrite take_take. f_equal. lia.
Qed.

Lemma slice_Some (b : bytes) (lo hi : Z) :
  0 <= lo <= hi -> hi <= len b ->
  slice b lo hi = Some (firstn (Z.to_nat (hi - lo)) (skipn (Z.to_nat lo) b)).
Proof.
  intros [H1 H2] H3. unfold slice.
  destruct (Z.leb_spec 0 lo); [|lia].
  destruct (Z.leb_spec lo hi); [|lia].
  destruct (Z.leb_spec hi (len b)); [|lia]. done.
Qed.

(** ** The address filter *)

Section Filter.
Context {codec : Codec}.

Lemma readLoop_datagram (src : UDPAddr) (payload : bytes) (rest : list event)
    (r : receiver) (w : world) (c : UDPConn) :
  conn r = Some c -> isOpen w = true ->
  discards r src = true ->
  readLoop (Datagram src payload :: rest) r w
  = readLoop rest (set_receive (copy (receive r) payload) r) w.
Proof.
  intros Hc Ho Hd. cbn [readLoop]. rewrite Hc, Ho. cbn [negb].
  change (discards (set_receive (copy (receive r) payload) r) src)
    with (discards r src).
  by rewrite Hd.
Qed.

Lemma discards_foreign (r : receiver) (src : UDPAddr) :
  tid r <> 0 ->
  IP_Equal (IP src) (IP (addr r)) = false \/ Port src <> tid r ->
  discards r src = true.
Proof.
  intros Ht [Hip|Hp]; unfold discards.
  - by rewrite Hip.
  - apply orb_true_iff. right.
    destruct (Z.eqb_spec (tid r) 0); [done|].
    destruct (Z.eqb_spec (Port src) (tid r)); done.
Qed.

End Filter.

(** ** What the calls leave as it is *)




#[global] Instance sameConfig_preorder : PreOrder sameConfig.
Proof.
  split.
  - intros r. by repeat split.
  - intros r1 r2 r3. unfold sameConfig. intros H1 H2.
    destruct H1 as (?&?&?&?&?&?&?&Ht1), H2 as (?&?&?&?&?&?&?&Ht2).
    repeat split; try congruence.
    intros Hn. rewrite Ht2; [auto|]. by rewrite Ht1.
Qed.

#[global] Instance movesOn_preorder : PreOrder movesOn.
Proof.
  split.
  - intros w. split; [exists []; by rewrite app_nil_r | lia].
  - intros w1 w2 w3 [[m1 H1] L1] [[m2 H2] L2]. split; [|lia].
    exists (m1 ++ m2). by rewrite H2, H1, app_assoc.
Qed.

#[global] Instance Rconfig_preorder : PreOrder Rconfig.
Proof.
  split.
  - intros x. by split.
  - intros x y z [? ?] [? ?]. split; by etrans.
Qed.

#[global] Instance Rretry_preorder : PreOrder Rretry.
Proof.
  split.
  - intros x. by split.
  - intros x y z [? ?] [? ?]. split; [by etrans | congruence].
Qed.


Lemma post_bind {A B} (m : M A) (k : A -> M B) r w Q :
  post (m r w) (fun a r' w' => post (k a r' w') Q) -> post ((m ≫= k) r w) Q.
Proof. unfold mbind, M_bind, bind, post. by destruct (m r w). Qed.

Lemma post_weaken {A} (o : outcome A) (Q Q' : A -> receiver -> world -> Prop) :
  post o Q -> (forall a r w, Q a r w -> Q' a r w) -> post o Q'.
Proof. destruct o; simpl; auto. Qed.

Lemma post_Ret {A} (o : outcome A) Q a r w : post o Q -> o = Ret a r w -> Q a r w.
Proof. by intros H ->. Qed.


Section Keeps.
Context (R : relation (receiver * world)) `{!PreOrder R}.

Lemma keeps_ret {A} (a : A) : keeps R (mret a).
Proof. intros r w. simpl. reflexivity. Qed.

Lemma keeps_get : keeps R get.
Proof. intros r w. simpl. reflexivity. Qed.

Lemma keeps_orPanic {A} (o : option A) : keeps R (orPanic o).
Proof. intros r w. destruct o; simpl; [reflexivity|done]. Qed.

Lemma keeps_bind {A B} (m : M A) (k : A -> M B) :
  keeps R m -> (forall a, keeps R (k a)) -> keeps R (m ≫= k).
Proof.
  intros Hm Hk r w. apply post_bind.
  eapply post_weaken; [apply Hm|]. intros a r' w' H1. simpl.
  eapply post_weaken; [apply Hk|]. intros b r'' w'' H2. simpl in *.
  by etrans.
Qed.

Lemma keeps_modify (f : receiver -> receiver) :
  (forall r w, R (r, w) (f r, w)) -> keeps R (modify f).
Proof. intros H r w. simpl. apply H. Qed.

End Keeps.

Lemma keeps_weaken (R R' : relation (receiver * world)) {A} (m : M A) :
  (forall x y, R x y -> R' x y) -> keeps R m -> keeps R' m.
Proof. intros H Hm r w. eapply post_weaken; [apply Hm|]. simpl. auto. Qed.

Lemma Rretry_Rconfig x y : Rretry x y -> Rconfig x y.
Proof. by intros [? _]. Qed.

Ltac solve_rel :=
  simplify_eq; unfold Rretry, Rconfig, sameConfig, movesOn; simpl;
  repeat split; try done; try lia;
  first [by eexists | by exists []; rewrite app_nil_r].

Create HintDb keeps.
#[export] Hint Resolve keeps_ret keeps_get keeps_orPanic : keeps.

Ltac keeps_step :=
  first
    [ solve [eauto with keeps]
    | apply keeps_ret; typeclasses eauto
    | apply keeps_get; typeclasses eauto
    | apply keeps_orPanic; typeclasses eauto
    | apply keeps_modify; [intros ? ?; solve_rel]
    | apply keeps_bind; [typeclasses eauto| |intros ?]
    | case_match ].

Section Frames.
Context {codec : Codec}.

Lemma SetReadDeadline_keeps : keeps Rretry SetReadDeadline.
Proof. intros r w. unfold SetReadDeadline. repeat case_match; solve_rel. Qed.

Lemma WriteToUDP_keeps b to : keeps Rretry (WriteToUDP b to).
Proof. intros r w. unfold WriteToUDP. repeat case_match; solve_rel. Qed.

Lemma Close_keeps : keeps Rretry Close.
Proof. intros r w. unfold Close. solve_rel. Qed.

Hint Resolve SetReadDeadline_keeps WriteToUDP_keeps Close_keeps : keeps.

Lemma abort_keeps e : keeps Rretry (abort e).
Proof. unfold abort. repeat keeps_step. Qed.

End Frames.
Section Frames2.
Context {codec : Codec}.
Hint Resolve SetReadDeadline_keeps WriteToUDP_keeps Close_keeps abort_keeps : keeps.

Lemma passes_tid (r : receiver) (src : UDPAddr) :
  discards r src = false -> tid r <> 0 -> Port src = tid r.
Proof.
  unfold discards. intros H Hn.
  apply orb_false_iff in H as [_ H].
  destruct (Z.eqb_spec (tid r) 0); [done|].
  destruct (Z.eqb_spec (Port src) (tid r)); done.
Qed.

Lemma applyOption_receive_only name value r :
  applyOption name value r = set_receive (receive (applyOption name value r)) r.
Proof.
  unfold applyOption, setBlockSize. destruct r.
  repeat case_match; simplify_eq/=; done.
Qed.

Lemma applyOptions_receive_only (os : options) r :
  map_fold applyOption r os = set_receive (receive (map_fold applyOption r os)) r.
Proof.
  induction os as [|k v m Hk Hfold IH] using map_first_key_ind.
  - rewrite map_fold_empty. by destruct r.
  - rewrite map_fold_insert_first_key by done.
    rewrite applyOption_receive_only. rewrite IH at 2. by destruct r.
Qed.

Lemma readLoop_keeps (inb : list event) :
  forall r w,
    post (readLoop inb r w) (fun _ r' w' => Rretry (r, set_inbox inb w) (r', w')).
Proof.
  induction inb as [|ev rest IH]; intros r w; cbn [readLoop].
  - repeat case_match; solve_rel.
  - destruct (conn r) eqn:Hc; [|solve_rel].
    destruct (isOpen w) eqn:Ho; cbn [negb]; [|solve_rel].
    destruct ev as [src payload|t]; [|solve_rel].
    set (r1 := set_receive (copy (receive r) payload) r).
    assert (H1 : Rretry (r, set_inbox (Datagram src payload :: rest) w)
                        (r1, set_inbox rest w)) by solve_rel.
    destruct (discards r1 src) eqn:Hd.
    { eapply post_weaken; [apply IH|]. intros ? r' w' H2. simpl in *. by etrans. }
    destruct (parsePacket _) as [err|p]; [solve_rel|].
    set (r2 := set_tid (Port src) r1).
    assert (H2 : Rretry (r, set_inbox (Datagram src payload :: rest) w)
                        (r2, set_inbox rest w)).
    { pose proof (passes_tid r1 src Hd) as Hp. unfold r2, r1 in *. clear r2 r1. simpl in *.
      solve_rel. }
    assert (Hgo : post (readLoop rest r2 w)
              (fun _ r' w' =>
                 Rretry (r, set_inbox (Datagram src payload :: rest) w) (r', w'))).
    { eapply post_weaken; [apply IH|]. intros ? r' w' H3. simpl in *. by etrans. }
    destruct p; try exact Hgo.
    + destruct (DATA_block p =? block r2); [exact H2|exact Hgo].
    + destruct (block r2 =? 1); cbn [negb]; [|exact Hgo].
      destruct (unpackOACK p) as [err|os].
      * apply post_bind. eapply post_weaken; [apply abort_keeps|].
        intros a r' w' H3. simpl in *. by etrans.
      * simpl. rewrite applyOptions_receive_only.
        pose proof (passes_tid r1 src Hd) as Hp. unfold r2, r1 in *. clear r2 r1. simpl in *.
        solve_rel.
    + exact H2.
Qed.

(** The loop run on the reads the network holds. *)
Lemma readLoop_inbox_keeps : keeps Rretry (fun r w => readLoop (inbox w) r w).
Proof.
  intros r w. eapply post_weaken; [apply readLoop_keeps|].
  intros ? r' w'. by destruct w.
Qed.

Hint Resolve readLoop_inbox_keeps : keeps.

Lemma receiveDatagram_keeps l : keeps Rretry (receiveDatagram l).
Proof. unfold receiveDatagram. repeat keeps_step. Qed.

Hint Resolve receiveDatagram_keeps : keeps.

Lemma receiveWithRetry_loop_keeps gas l : keeps Rconfig (receiveWithRetry_loop gas l).
Proof.
  induction gas as [|g IH]; cbn [receiveWithRetry_loop].
  - intros r w. done.
  - apply keeps_bind; [typeclasses eauto| |].
    { eapply keeps_weaken; [apply Rretry_Rconfig|]. apply receiveDatagram_keeps. }
    intros [[n a] err]. repeat keeps_step.
Qed.

Hint Resolve receiveWithRetry_loop_keeps : keeps.

Lemma receiveWithRetry_keeps gas l : keeps Rconfig (receiveWithRetry gas l).
Proof. unfold receiveWithRetry. repeat keeps_step. Qed.

Lemma abort_keeps_config e : keeps Rconfig (abort e).
Proof. eapply keeps_weaken; [apply Rretry_Rconfig|]. apply abort_keeps. Qed.

End Frames2.

(** ** The retry loop when nothing arrives *)


Section Timeouts.
Context {codec : Codec}.

Lemma readLoop_silent (inb : list event) (r : receiver) (w : world) (c : UDPConn) :
  conn r = Some c -> isOpen w = true -> silent inb ->
  readLoop inb r w = Ret (0, None, Some errTimeout) r (set_inbox (tl inb) w).
Proof.
  intros Hc Ho Hs. destruct inb as [|ev rest]; cbn [readLoop]; rewrite Hc, Ho; cbn [negb].
  - done.
  - apply Forall_cons in Hs as [-> _]. done.
Qed.

(** One attempt: the datagram is sent unless the send fails, the read
    fails at the deadline, and the receiver is as it was. *)
Lemma receiveDatagram_silent (n : Z) (r : receiver) (w : world) (c : UDPConn) (d : bytes) :
  conn r = Some c -> isOpen w = true -> silent (inbox w) ->
  slice (send r) 0 n = Some d ->
  exists e w',
    receiveDatagram n r w = Ret (0, None, Some e) r w'
    /\ isNetError e = true
    /\ closes w' = closes w /\ silent (inbox w') /\ txfail w' = tl (txfail w)
    /\ ((outbox w' = outbox w ++ [(d, addr r)] /\ e = errTimeout
         /\ hd false (txfail w) = false)
        \/ (outbox w' = outbox w /\ hd false (txfail w) = true)).
Proof.
  intros Hc Ho Hs Hd. unfold receiveDatagram. munfold.
  unfold SetReadDeadline. rewrite Hc, Ho. rewrite Hd.
  unfold WriteToUDP. munfold. rewrite Hc, Ho.
  assert (Htl : silent (tl (inbox w))).
  { destruct (inbox w); [done|]. by apply Forall_cons in Hs as [_ ?]. }
  destruct (txfail w) as [|[] t] eqn:Ht.
  - erewrite readLoop_silent by (simpl; eauto).
    do 2 eexists. split; [reflexivity|]. simpl. repeat split; auto.
  - do 2 eexists. split; [reflexivity|]. simpl. repeat split; auto.
  - erewrite readLoop_silent by (simpl; eauto).
    do 2 eexists. split; [reflexivity|]. simpl. repeat split; auto.
Qed.


Lemma retry_loop_silent (n : Z) (d : bytes) (c : UDPConn) (gas : nat) :
  forall (r : receiver) (w : world),
    conn r = Some c -> isOpen w = true -> silent (inbox w) ->
    slice (send r) 0 n = Some d ->
    (Z.to_nat (retries r - attempt (retry r)) < gas)%nat ->
    exists e w' k,
      receiveWithRetry_loop gas n r w = Ret (0, None, Some e) (exhausted r) w'
      /\ isNetError e = true
      /\ outbox w' = outbox w ++ repeat (d, addr r) k
      /\ (k <= S (Z.to_nat (retries r - attempt (retry r))))%nat
      /\ closes w' = closes w /\ silent (inbox w')
      /\ (txfail w = [] ->
          k = S (Z.to_nat (retries r - attempt (retry r)))
          /\ e = errTimeout /\ txfail w' = []).
Proof.
  induction gas as [|g IH]; intros r w Hc Ho Hs Hd Hg; [lia|].
  destruct (receiveDatagram_silent n r w c d Hc Ho Hs Hd)
    as (e & w1 & Hrd & Hnet & Hcl & Hs1 & Htx & Hout).
  cbn [receiveWithRetry_loop]. munfold. rewrite Hrd.
  unfold isNet. rewrite Hnet. cbn [andb]. unfold backoff_count.
  destruct (Z.ltb_spec (attempt (retry r)) (retries r)) as [Hlt|Hge].
  - set (r1 := set_retry (backoff_backoff (retry r)) r).
    assert (Ho1 : isOpen w1 = true) by (unfold isOpen in *; by rewrite Hcl).
    assert (Hg1 : (Z.to_nat (retries r1 - attempt (retry r1)) < g)%nat).
    { subst r1. simpl. lia. }
    destruct (IH r1 w1 Hc Ho1 Hs1 Hd Hg1)
      as (e2 & w2 & k & Hrun & Hnet2 & Hout2 & Hk & Hcl2 & Hs2 & Hok).
    assert (Hex : exhausted r1 = exhausted r).
    { subst r1. unfold exhausted, set_retry. simpl. f_equal. f_equal. lia. }
    assert (Hm : Z.to_nat (retries r - attempt (retry r))
                 = S (Z.to_nat (retries r1 - attempt (retry r1)))).
    { subst r1. simpl. lia. }
    rewrite Hex in Hrun.
    destruct Hout as [(Ho' & -> & Hhd)|(Ho' & Hhd)].
    + exists e2, w2, (S k). split; [exact Hrun|]. split; [done|].
      split. { rewrite Hout2, Ho'. subst r1. simpl. by rewrite <- app_assoc. }
      split. { lia. }
      split. { congruence. }
      split. { done. }
      intros Htf.
      assert (Htf1 : txfail w1 = []) by (by rewrite Htx, Htf).
      destruct (Hok Htf1) as (-> & -> & ->). split; [lia|done].
    + exists e2, w2, k. split; [exact Hrun|]. split; [done|].
      split. { by rewrite Hout2, Ho'. }
      split. { lia. }
      split. { congruence. }
      split. { done. }
      intros Htf. by rewrite Htf in Hhd.
  - assert (Hex : exhausted r = r).
    { unfold exhausted, set_retry. rewrite Z.max_l by lia.
      by destruct r as [? ? ? ? ? ? ? []]. }
    rewrite Hex.
    assert (Hz : Z.to_nat (retries r - attempt (retry r)) = 0%nat) by lia.
    destruct Hout as [(Ho' & -> & Hhd)|(Ho' & Hhd)].
    + exists errTimeout, w1, 1%nat. split; [done|]. split; [done|].
      split. { done. }
      split. { lia. }
      split. { done. }
      split. { done. }
      intros Htf. split; [lia|]. split; [done|]. by rewrite Htx, Htf.
    + exists e, w1, 0%nat. split; [done|]. split; [done|].
      split. { by rewrite Ho', app_nil_r. }
      split. { lia. }
      split. { done. }
      split. { done. }
      intros Htf. by rewrite Htf in Hhd.
Qed.

End Timeouts.

Section Abort.
Context {codec : Codec}.

(** [abort] on an open socket whose send succeeds: the ERROR packet goes
    out to the peer, the socket is closed, the connection forgotten. *)
Lemma abort_open (e : error) (r : receiver) (w : world) (c : UDPConn)
    (buf : bytes) (m : Z) (d : bytes) :
  conn r = Some c -> isOpen w = true -> txfail w = [] ->
  packERROR (send r) 1 (Error e) = (buf, m) -> slice buf 0 m = Some d ->
  abort e r w
  = Ret None (set_conn None (set_send buf r))
      {| inbox := inbox w; outbox := outbox w ++ [(d, addr r)];
         closes := S (closes w); txfail := [] |}.
Proof.
  intros Hc Ho Ht Hp Hs. unfold abort. munfold. rewrite Hc, Hp. simpl.
  rewrite Hs. unfold WriteToUDP. munfold. simpl. rewrite Hc, Ho, Ht. done.
Qed.

(** Without a connection [abort] does nothing. *)
Lemma abort_nil (e : error) (r : receiver) (w : world) :
  conn r = None -> abort e r w = Ret None r w.
Proof. intros Hc. unfold abort. munfold. by rewrite Hc. Qed.

Lemma PutUint16_length (b : bytes) (lo v : Z) (b' : bytes) :
  PutUint16 b lo v = Some b' -> length b' = length b /\ 0 <= lo /\ lo + 2 <= len b.
Proof.
  unfold PutUint16, slice, len. intros H.
  destruct (0 <=? lo) eqn:H1; [|done].
  destruct (lo <=? lo + 2) eqn:H2; [|done].
  destruct (lo + 2 <=? Z.of_nat (length b)) eqn:H3; [|done].
  cbn [andb] in H. simplify_eq.
  apply Z.leb_le in H1, H3.
  rewrite !length_app, length_take, length_drop. cbn [length]. lia.
Qed.


End Abort.

(** ** Exhausted retries *)

Section Exhausted.
Context {codec : Codec}.

Lemma ack_header (s : bytes) (blk : Z) :
  4 <= len s ->
  exists b0 buf,
    PutUint16 s 0 opACK = Some b0
    /\ PutUint16 b0 2 blk = Some buf
    /\ buf = wireACK blk ++ skipn 4 s
    /\ slice buf 0 4 = Some (wireACK blk).
Proof.
  intros Hl. unfold len in Hl.
  destruct s as [|a0 [|a1 [|a2 [|a3 s]]]]; simpl in Hl; try lia.
  assert (Hlen : forall x y z t, 4 <= len (x :: y :: z :: t :: s)).
  { intros. unfold len. simpl. lia. }
  exists (0 :: 4 :: a2 :: a3 :: s), (wireACK blk ++ s).
  split; [|split; [|split]].
  - unfold PutUint16. rewrite slice_Some; [done|lia|]. specialize (Hlen a0 a1 a2 a3). lia.
  - unfold PutUint16. rewrite slice_Some; [done|lia|]. specialize (Hlen 0 4 a2 a3). lia.
  - done.
  - rewrite slice_Some; [done|lia|]. unfold len, wireACK. simpl. lia.
Qed.

End Exhausted.

Section ExhaustedWriteTo.
Context {codec : Codec} {W : Type} (Write : W -> bytes -> Z * option error * W).


End ExhaustedWriteTo.



(** ** The bound on retransmissions *)

Section Bounded.
Context {codec : Codec}.

(** C5.  A round trip in which every attempt fails with an error of the
    network (the read times out, or the send fails): with more
    iterations allowed than [retries], [receiveWithRetry] returns; what
    it has sent is the same datagram [k] times, [k] at most one more than
    [retries]; it returns the failure and leaves the receiver as it was
    but for the retry counter.  When no send fails, the datagram goes out
    once and again exactly [retries] times, and the failure is the
    timeout. *)
Theorem receiveWithRetry_bounded
    (gas : nat) (n : Z) (r : receiver) (w : world) (c : UDPConn) (d : bytes) :
  conn r = Some c -> isOpen w = true -> silent (inbox w) ->
  slice (send r) 0 n = Some d ->
  (Z.to_nat (retries r) < gas)%nat ->
  exists e w' k,
    receiveWithRetry gas n r w
    = Ret (0, None, Some e)
        (set_retry {| attempt := Z.max 0 (retries r); handler := handler (retry r) |} r)
        w'
    /\ isNetError e = true
    /\ outbox w' = outbox w ++ repeat (d, addr r) k
    /\ (k <= S (Z.to_nat (retries r)))%nat
    /\ (txfail w = [] -> k = S (Z.to_nat (retries r)) /\ e = errTimeout).
Proof.
  intros Hc Ho Hs Hd Hg. unfold receiveWithRetry. munfold.
  set (r1 := set_retry _ r).
  destruct (retry_loop_silent n d c gas r1 w)
    as (e & w' & k & Hrun & Hnet & Hout & Hk & _ & _ & Hok); try done.
  { subst r1. simpl. by rewrite Z.sub_0_r. }
  exists e, w', k. subst r1. simpl in *. rewrite Z.sub_0_r in *.
  split; [exact Hrun|]. split; [done|]. split; [done|]. split; [done|].
  intros Ht. by destruct (Hok Ht) as (? & ? & _).
Qed.

End Bounded.

Lemma receiveWithRetry_bounded_witness :
  exists e w' k,
    receiveWithRetry 3 4 (newReceiver None) (freshWorld [])
    = Ret (0, None, Some e)
        (set_retry {| attempt := 2; handler := None |} (newReceiver None)) w'
    /\ isNetError e = true
    /\ outbox w' = repeat ([0; 0; 0; 0], peer) k
    /\ (k <= 3)%nat
    /\ (@nil bool = [] -> k = 3%nat /\ e = errTimeout).
Proof.
  apply (receiveWithRetry_bounded 3 4 (newReceiver None) (freshWorld []) theConn
           [0; 0; 0; 0]); try reflexivity; by vm_compute.
Defined.

(** ** Datagrams the filter passes over *)

Section Discard.
Context {codec : Codec}.

(** C2, as the code has it.  A session whose transfer identifier is set
    reads a datagram that is not from the IP of the peer, or not from the
    port the identifier names: the loop goes on to the next read with the
    receiver as it was but for the contents of the receive buffer, which
    the read has overwritten (its length stays); nothing is sent and the
    network is as it was.  Block counter, options, send buffer, transfer
    identifier and every other field are untouched. *)
Theorem foreign_datagram_discarded
    (r : receiver) (w : world) (c : UDPConn) (src : UDPAddr) (payload : bytes)
    (rest : list event) :
  conn r = Some c -> isOpen w = true ->
  tid r <> 0 ->
  IP_Equal (IP src) (IP (addr r)) = false \/ Port src <> tid r ->
  exists r',
    readLoop (Datagram src payload :: rest) r w = readLoop rest r' w
    /\ r' = set_receive (copy (receive r) payload) r
    /\ length (receive r') = length (receive r).
Proof.
  intros Hc Ho Ht Hsrc. eexists. split; [|split; [reflexivity|]].
  - eapply readLoop_datagram; [done..|]. by apply discards_foreign.
  - simpl. apply length_copy.
Qed.

End Discard.

Lemma foreign_datagram_discarded_witness :
  exists r',
    readLoop [Datagram (peerAt 9999) [1; 2; 3; 4]] lockedReceiver (freshWorld [])
    = readLoop [] r' (freshWorld [])
    /\ r' = set_receive (copy (receive lockedReceiver) [1; 2; 3; 4]) lockedReceiver
    /\ length (receive r') = length (receive lockedReceiver).
Proof.
  apply (foreign_datagram_discarded lockedReceiver (freshWorld []) theConn
           (peerAt 9999) [1; 2; 3; 4] []); try reflexivity.
  - by vm_compute.
  - right. by vm_compute.
Defined.

(** C2 as stated fails for the receive buffer: a datagram from another
    port than the one the session is locked to is passed over, and has
    changed the receive buffer all the same. *)
Lemma foreign_datagram_overwrites_receive :
  tid lockedReceiver <> 0
  /\ Port (peerAt 9999) <> tid lockedReceiver
  /\ exists res r' w',
       readLoop [Datagram (peerAt 9999) [1; 2; 3; 4]] lockedReceiver (freshWorld [])
       = Ret res r' w'
       /\ res = (0, None, Some errTimeout)
       /\ outbox w' = []
       /\ firstn 4 (receive lockedReceiver) = [0; 0; 0; 0]
       /\ firstn 4 (receive r') = [1; 2; 3; 4].
Proof.
  split; [by vm_compute|]. split; [by vm_compute|].
  eexists _, _, _. split; [vm_compute; reflexivity|].
  by vm_compute.
Qed.

(** ** Locking the transfer identifier *)


Lemma lands_post {A} (o : outcome A) Q : post o Q -> o <> OutOfFuel -> lands o Q.
Proof. by destruct o. Qed.

Section Lock.
Context {codec : Codec}.

Lemma abort_fuel e r w : abort e r w <> OutOfFuel.
Proof.
  unfold abort, WriteToUDP. munfold. repeat (case_match; simplify_eq/=; try done).
Qed.

Lemma readLoop_fuel (inb : list event) : forall r w, readLoop inb r w <> OutOfFuel.
Proof.
  induction inb as [|ev rest IH]; intros r w; cbn [readLoop].
  - repeat case_match; done.
  - repeat (case_match; try done); try apply IH.
    munfold.
    match goal with
    | |- context [abort ?e ?r ?w] =>
        pose proof (abort_fuel e r w); by destruct (abort e r w)
    end.
Qed.

Lemma passes_any_port (r : receiver) (src : UDPAddr) :
  tid r = 0 -> IP_Equal (IP src) (IP (addr r)) = true -> discards r src = false.
Proof. intros Ht Hip. unfold discards. by rewrite Hip, Ht. Qed.

(** C6, as the code has it.  A session whose transfer identifier is not
    set reads a datagram.  From another IP than the peer's it is passed
    over and the identifier stays unset.  From the IP of the peer it
    passes the filter whatever its port; when it does not parse, the call
    returns the error and the identifier stays unset; when it parses, the
    identifier is set to its source port before the packet is looked at,
    and it is that port when the call returns, whether the packet was
    one the receiver waited for or not. *)
Theorem tid_set_by_first_parsed_datagram
    (r : receiver) (w : world) (c : UDPConn) (src : UDPAddr) (payload : bytes)
    (rest : list event) :
  conn r = Some c -> isOpen w = true -> tid r = 0 ->
  let r1 := set_receive (copy (receive r) payload) r in
  (IP_Equal (IP src) (IP (addr r)) = false ->
     readLoop (Datagram src payload :: rest) r w = readLoop rest r1 w
     /\ tid r1 = 0)
  /\ (IP_Equal (IP src) (IP (addr r)) = true ->
      discards r src = false
      /\ (forall err,
            parsePacket (firstn (length (receive r)) payload) = inl err ->
            readLoop (Datagram src payload :: rest) r w
            = Ret (0, Some src, Some err) r1 (set_inbox rest w)
            /\ tid r1 = 0)
      /\ (forall p,
            parsePacket (firstn (length (receive r)) payload) = inr p ->
            Port src <> 0 ->
            lands (readLoop (Datagram src payload :: rest) r w)
                  (fun _ r' _ => tid r' = Port src))).
Proof.
  intros Hc Ho Ht r1. split.
  - intros Hip. split; [|done].
    eapply readLoop_datagram; [done..|]. unfold discards. by rewrite Hip.
  - intros Hip. pose proof (passes_any_port r src Ht Hip) as Hd.
    split; [done|].
    split.
    + intros err Hp. split; [|done].
      cbn [readLoop]. rewrite Hc, Ho. cbn [negb].
      change (discards (set_receive (copy (receive r) payload) r) src)
        with (discards r src). rewrite Hd.
      cbn [receive set_receive]. rewrite take_read, Hp. done.
    + intros p Hp Hport. apply lands_post; [|apply readLoop_fuel].
      cbn [readLoop]. rewrite Hc, Ho. cbn [negb].
      change (discards (set_receive (copy (receive r) payload) r) src)
        with (discards r src). rewrite Hd.
      cbn [receive set_receive]. rewrite take_read, Hp.
      fold r1. set (r2 := set_tid (Port src) r1).
      assert (Hgo : post (readLoop rest r2 w) (fun _ r' _ => tid r' = Port src)).
      { eapply post_weaken; [apply readLoop_keeps|].
        intros ? r' w' [[Hcfg _] _]. simpl in Hcfg.
        destruct Hcfg as (_&_&_&_&_&_&_&Htid). by apply Htid. }
      destruct p; try exact Hgo.
      * destruct (DATA_block p =? block r2); [done|exact Hgo].
      * destruct (block r2 =? 1); cbn [negb]; [|exact Hgo].
        destruct (unpackOACK p) as [err|os].
        -- apply post_bind. eapply post_weaken; [apply abort_keeps|].
           intros ? r' w' [[Hcfg _] _]. simpl in *.
           destruct Hcfg as (_&_&_&_&_&_&_&Htid). by apply Htid.
        -- simpl. by rewrite applyOptions_receive_only.
      * done.
Qed.

End Lock.

Lemma tid_set_by_first_parsed_datagram_witness :
  lands (readLoop [Datagram (peerAt 2000) (wireDATA 7 [1])] waitingReceiver (freshWorld []))
        (fun _ r' _ => tid r' = 2000).
Proof.
  refine (proj2 (proj2 (proj2
    (tid_set_by_first_parsed_datagram waitingReceiver (freshWorld []) theConn
       (peerAt 2000) (wireDATA 7 [1]) [] _ _ _) _) ) (pDATA (wireDATA 7 [1])) _ _);
    try reflexivity.
  by vm_compute.
Defined.

(** C6 as stated fails: a DATA packet with a block number the receiver
    does not wait for is not accepted, and yet sets the transfer
    identifier; the block the receiver does wait for, sent from another
    port of the peer, is then passed over and the round ends at the
    deadline. *)
Lemma tid_set_before_first_accepted_reply :
  tid waitingReceiver = 0 /\ block waitingReceiver = 1
  /\ exists r' w',
       readLoop [Datagram (peerAt 1000) (wireDATA 7 [1]);
                 Datagram (peerAt 2000) (wireDATA 1 [42])]
                waitingReceiver (freshWorld [])
       = Ret (0, None, Some errTimeout) r' w'
       /\ tid r' = 1000.
Proof.
  split; [done|]. split; [done|].
  eexists _, _. split; [vm_compute; reflexivity|]. done.
Qed.

(** ** An ERROR packet from the peer *)




Section PeerError.
Context {codec : Codec}.






End PeerError.

Example peerError_text :
  peerError (wireERROR 3 "disk full") = Errorf "code: 3, message: disk full".
Proof. by vm_compute. Qed.


(** ** The sessions the listener starts *)

Section Dispatch.
Context {codec : Codec}.

(** C7, as the code has it.  A request that parses, whose fields unpack
    and for which a socket could be opened.  For a WRQ the receiver
    starts with the source of the request as the address of the peer and
    with the transfer identifier unset, so that its filter passes a
    datagram from any port of the IP of the peer.  For an RRQ the sender
    starts with the source of the request as the address of the peer and
    with the transfer identifier set to the source port of the
    request. *)
Theorem handlePacket_peer_and_tid
    (s : Server.Server) (listen : error + UDPConn) (localAddr : option bytes)
    (remoteAddr : UDPAddr) (buffer : bytes) (n : Z)
    (b p : bytes) (filename mode : string) (os : option options) (c : UDPConn) :
  slice buffer 0 n = Some b ->
  unpackRQ p = inr (filename, mode, os) ->
  listen = inr c ->
  (parsePacket b = inr (pWRQ p) ->
     exists wt,
       handlePacket s listen localAddr remoteAddr buffer n = Some (ServeWRQ filename wt)
       /\ addr wt = remoteAddr /\ tid wt = 0
       /\ (forall src, IP_Equal (IP src) (IP remoteAddr) = true -> discards wt src = false))
  /\ (parsePacket b = inr (pRRQ p) ->
      exists rf,
        handlePacket s listen localAddr remoteAddr buffer n = Some (ServeRRQ filename rf)
        /\ Sender.addr rf = remoteAddr /\ Sender.tid rf = Port remoteAddr).
Proof.
  intros Hs Hu ->. split; intros Hp; unfold handlePacket; rewrite Hs, Hp, Hu.
  - eexists. split; [reflexivity|]. split; [done|]. split; [done|].
    intros src Hip. by apply passes_any_port.
  - eexists. split; [reflexivity|]. done.
Qed.

End Dispatch.

Lemma handlePacket_peer_and_tid_witness :
  exists rf,
    handlePacket server (inr theConn) None peer (readInto readRequest) (len readRequest)
    = Some (ServeRRQ "foo" rf)
    /\ Sender.addr rf = peer /\ Sender.tid rf = Port peer.
Proof.
  apply (handlePacket_peer_and_tid server (inr theConn) None peer
           (readInto readRequest) (len readRequest)
           readRequest readRequest "foo" "octet" None theConn);
    by vm_compute.
Defined.

(** C7 as stated fails for an RRQ: the sender is started with its
    transfer identifier set, to the source port of the request. *)
Lemma handlePacket_RRQ_tid_set :
  exists rf,
    handlePacket server (inr theConn) None peer (readInto readRequest) (len readRequest)
    = Some (ServeRRQ "foo" rf)
    /\ Sender.tid rf = 1234 /\ Sender.tid rf <> 0.
Proof.
  eexists. split; [vm_compute; reflexivity|]. done.
Qed.

(** The receiver of the examples is the one the listener builds. *)
Example handlePacket_newReceiver :
  handlePacket server (inr theConn) None peer (readInto writeRequest) (len writeRequest)
  = Some (ServeWRQ "bar" (newReceiver None)).
Proof. by vm_compute. Qed.

(** ** Option acceptance *)

Section Options.
Context {codec : Codec}.

Lemma setBlockSize_acceptable (value : string) (r : receiver) :
  if acceptable value
  then exists n, Atoi value = inr n /\ 512 <= n <= 65464
                 /\ setBlockSize value r = (None, set_receive (make (n + 4)) r)
  else exists err, setBlockSize value r = (Some err, r).
Proof.
  unfold acceptable, setBlockSize, defaultBlockSize, maxBlockSize.
  destruct (Atoi value) as [err|n]; [by eexists|].
  destruct (Z.ltb_spec n 512), (Z.leb_spec 512 n); try lia; cbn [andb].
  - by eexists.
  - destruct (Z.ltb_spec 65464 n), (Z.leb_spec n 65464); try lia.
    + by eexists.
    + exists n. repeat split; try done; lia.
Qed.

Lemma acceptable_spec (value : string) :
  acceptable value = true <-> exists n, Atoi value = inr n /\ 512 <= n <= 65464.
Proof.
  unfold acceptable, defaultBlockSize, maxBlockSize. split.
  - destruct (Atoi value) as [|n]; [done|]. intros [H1 H2]%andb_true_iff.
    apply Z.leb_le in H1, H2. by exists n.
  - intros (n & -> & H1 & H2). apply andb_true_iff. split; by apply Z.leb_le.
Qed.

(** One turn of the loop of [sendOptions]: the entry is deleted from the
    map unless it is an acceptable [blksize]; besides the map only the
    receive buffer changes. *)
Lemma acceptOption_step (name value : string) (r : receiver) :
  exists buf,
    acceptOption name value r
    = set_opts ((if bool_decide (name = "blksize") && acceptable value
                 then id else delete name) <$> opts r)
        (set_receive buf r).
Proof.
  unfold acceptOption.
  pose proof (setBlockSize_acceptable value r) as Hs.
  destruct (decide (name = "blksize")) as [->|Hne].
  - rewrite bool_decide_eq_true_2 by done. cbn [andb].
    destruct (acceptable value).
    + destruct Hs as (n & _ & _ & ->). exists (make (n + 4)).
      by destruct r as [? ? ? ? ? ? ? ? ? ? ? ? ? ? []].
    + destruct Hs as (err & ->). exists (receive r). by destruct r.
  - rewrite bool_decide_eq_false_2 by done. cbn [andb].
    exists (receive r). by destruct r.
Qed.

(** The loop of [sendOptions] run over the entries [m] of the map [m0]
    the receiver holds: of the entries in [m], the acceptable [blksize]
    stays. *)
Lemma acceptOptions_fold (m0 : options) (m : options) :
  forall r, opts r = Some m0 ->
    exists buf,
      map_fold acceptOption r m
      = set_opts
          (Some (filter (fun kv => survives m kv = true) m0))
          (set_receive buf r).
Proof.
  induction m as [|k v m Hk Hfirst IH] using map_first_key_ind; intros r Hr.
  - rewrite map_fold_empty. exists (receive r).
    rewrite (map_filter_id _ m0).
    + destruct r; simpl in *. by subst.
    + intros i x _. unfold survives. simpl. by rewrite lookup_empty.
  - rewrite map_fold_insert_first_key by done.
    destruct (IH r Hr) as (buf & ->).
    destruct (acceptOption_step k v
                (set_opts (Some (filter (fun kv => survives m kv = true) m0)) (set_receive buf r))) as (buf' & ->).
    exists buf'. simpl. unfold set_opts, set_receive. simpl. f_equal. f_equal.
    apply map_eq. intros i.
    destruct (bool_decide (k = "blksize") && acceptable v) eqn:Hacc.
    + simpl. apply option_eq. intros x.
      rewrite !map_lookup_filter_Some. unfold survives. simpl.
      destruct (decide (i = k)) as [->|Hik].
      * rewrite lookup_insert_eq, Hk. by rewrite Hacc.
      * by rewrite lookup_insert_ne.
    + simpl. apply option_eq. intros x.
      destruct (decide (i = k)) as [->|Hik].
      * rewrite lookup_delete_eq. rewrite map_lookup_filter_Some.
        unfold survives. simpl. rewrite lookup_insert_eq, Hacc.
        split; [done|]. by intros [_ ?].
      * rewrite lookup_delete_ne by done.
        rewrite !map_lookup_filter_Some. unfold survives. simpl.
        by rewrite lookup_insert_ne.
Qed.

(** What [sendOptions] leaves of the options before it packs them. *)
Lemma acceptOptions_accepted (r : receiver) (m : options) :
  opts r = Some m ->
  exists buf, acceptOptions r = set_opts (Some (accepted m)) (set_receive buf r).
Proof.
  intros Hr. unfold acceptOptions. rewrite Hr.
  destruct (acceptOptions_fold m m r Hr) as (buf & ->).
  exists buf. f_equal. f_equal. unfold accepted.
  apply map_filter_ext. intros i x Hi. unfold survives. simpl. rewrite Hi.
  rewrite andb_true_iff, bool_decide_eq_true. done.
Qed.


End Options.

(** ** Frames of the remaining calls *)

Section Frames3.
Context {codec : Codec}.
Hint Resolve SetReadDeadline_keeps WriteToUDP_keeps Close_keeps abort_keeps
  readLoop_inbox_keeps receiveDatagram_keeps : keeps.
Hint Resolve receiveWithRetry_loop_keeps receiveWithRetry_keeps abort_keeps_config : keeps.

Lemma keeps_config_of_retry {A} (m : M A) : keeps Rretry m -> keeps Rconfig m.
Proof. apply keeps_weaken, Rretry_Rconfig. Qed.

Lemma acceptOptions_sameConfig (r : receiver) : sameConfig r (acceptOptions r).
Proof.
  destruct (opts r) as [m|] eqn:Hr.
  - destruct (acceptOptions_accepted r m Hr) as (buf & ->). by repeat split.
  - unfold acceptOptions. rewrite Hr. reflexivity.
Qed.

Lemma receiveDatagram_keeps_config n : keeps Rconfig (receiveDatagram n).
Proof. apply keeps_config_of_retry, receiveDatagram_keeps. Qed.

Lemma WriteToUDP_keeps_config b to : keeps Rconfig (WriteToUDP b to).
Proof. apply keeps_config_of_retry, WriteToUDP_keeps. Qed.

Lemma Close_keeps_config : keeps Rconfig Close.
Proof. apply keeps_config_of_retry, Close_keeps. Qed.

Hint Resolve receiveDatagram_keeps_config WriteToUDP_keeps_config Close_keeps_config : keeps.

Lemma sendOptions_keeps gas : keeps Rconfig (sendOptions gas).
Proof.
  unfold sendOptions.
  apply keeps_bind; [typeclasses eauto| |intros ?].
  { apply keeps_modify. intros r w. split; [apply acceptOptions_sameConfig|reflexivity]. }
  repeat keeps_step.
Qed.

Lemma dallyLoop_keeps i : keeps Rconfig (dallyLoop i).
Proof. induction i; cbn [dallyLoop]; repeat keeps_step. Qed.

Hint Resolve sendOptions_keeps dallyLoop_keeps : keeps.

Lemma terminate_keeps : keeps Rconfig terminate.
Proof. unfold terminate. repeat keeps_step. Qed.

Hint Resolve terminate_keeps : keeps.

Section WithWriter.
Context {W : Type} (Write : W -> bytes -> Z * option error * W).

Lemma deliver_keeps w n : keeps Rconfig (deliver Write w n).
Proof. unfold deliver. repeat keeps_step. Qed.

Lemma ackAndWait_keeps gas n : keeps Rconfig (ackAndWait gas n).
Proof. unfold ackAndWait. repeat keeps_step. Qed.

Hint Resolve deliver_keeps ackAndWait_keeps : keeps.

Lemma WriteTo_loop_keeps fuel gas : forall w n, keeps Rconfig (WriteTo_loop Write fuel gas w n).
Proof.
  induction fuel as [|f IH]; intros w n; cbn [WriteTo_loop].
  - intros r wd. done.
  - repeat keeps_step.
Qed.

Hint Resolve WriteTo_loop_keeps : keeps.

Lemma WriteTo_keeps fuel gas w : keeps Rconfig (WriteTo Write fuel gas w).
Proof. unfold WriteTo. repeat keeps_step. Qed.

End WithWriter.
End Frames3.

(** ** Enough iterations *)

Lemma runs_bind {A B} (m : M A) (k : A -> M B) :
  runs m -> (forall a, runs (k a)) -> runs (m ≫= k).
Proof.
  intros Hm Hk r w. unfold mbind, M_bind, bind.
  specialize (Hm r w). destruct (m r w); [apply Hk|done|done].
Qed.

Lemma runs_ret {A} (a : A) : runs (mret a).
Proof. intros r w. done. Qed.

Lemma runs_get : runs get.
Proof. intros r w. done. Qed.

Lemma runs_modify f : runs (modify f).
Proof. intros r w. done. Qed.

Lemma runs_orPanic {A} (o : option A) : runs (orPanic o).
Proof. intros r w. by destruct o. Qed.

Create HintDb runs.
#[export] Hint Resolve runs_ret runs_get runs_modify runs_orPanic : runs.

Ltac runs_step :=
  first
    [ solve [eauto with runs]
    | apply runs_bind; [|intros ?]
    | case_match ].

Section Fuel.
Context {codec : Codec}.

Lemma SetReadDeadline_runs : runs SetReadDeadline.
Proof. intros r w. unfold SetReadDeadline. by repeat case_match. Qed.

Lemma WriteToUDP_runs b to : runs (WriteToUDP b to).
Proof. intros r w. unfold WriteToUDP. by repeat case_match. Qed.

Lemma Close_runs : runs Close.
Proof. intros r w. done. Qed.

Lemma abort_runs e : runs (abort e).
Proof. intros r w. apply abort_fuel. Qed.

Lemma readLoop_runs : runs (fun r w => readLoop (inbox w) r w).
Proof. intros r w. apply readLoop_fuel. Qed.

Hint Resolve SetReadDeadline_runs WriteToUDP_runs Close_runs abort_runs readLoop_runs : runs.

Lemma receiveDatagram_runs n : runs (receiveDatagram n).
Proof. unfold receiveDatagram. repeat runs_step. Qed.

Hint Resolve receiveDatagram_runs : runs.

Lemma dallyLoop_runs i : runs (dallyLoop i).
Proof. induction i; cbn [dallyLoop]; repeat runs_step. Qed.

Hint Resolve dallyLoop_runs : runs.

Lemma terminate_runs : runs terminate.
Proof. unfold terminate. repeat runs_step. Qed.

(** The retry loop returns when it may go round more often than the
    retries it has left. *)
Lemma receiveWithRetry_loop_fuel (n : Z) (gas : nat) :
  forall r w,
    (Z.to_nat (retries r - attempt (retry r)) < gas)%nat ->
    receiveWithRetry_loop gas n r w <> OutOfFuel.
Proof.
  induction gas as [|g IH]; intros r w Hg; [lia|].
  cbn [receiveWithRetry_loop]. munfold.
  pose proof (receiveDatagram_keeps n r w) as Hk.
  pose proof (receiveDatagram_runs n r w) as Hr.
  destruct (receiveDatagram n r w) as [[[k a] err] r1 w1| |]; [|done|done].
  simpl in Hk. destruct Hk as [[Hcfg _] Hretry]. simpl in *.
  destruct Hcfg as (_&_&_&Hretries&_).
  unfold backoff_count.
  destruct (isNet err && (attempt (retry r1) <? retries r1)) eqn:Hc; [|done].
  apply andb_true_iff in Hc as [_ Hlt]. apply Z.ltb_lt in Hlt.
  apply IH. simpl. rewrite Hretries, Hretry in *. lia.
Qed.

Lemma receiveWithRetry_fuel (n : Z) (gas : nat) (r : receiver) (w : world) :
  (Z.to_nat (retries r) < gas)%nat -> receiveWithRetry gas n r w <> OutOfFuel.
Proof.
  intros Hg. unfold receiveWithRetry. munfold.
  apply receiveWithRetry_loop_fuel. simpl. by rewrite Z.sub_0_r.
Qed.

End Fuel.

(** ** The first datagram of a round trip *)

Lemma post_then {A B} (m : M A) (k : A -> M B) r w
    (Q1 : A -> receiver -> world -> Prop) (Q : B -> receiver -> world -> Prop) :
  post (m r w) Q1 ->
  (forall a r' w', Q1 a r' w' -> post (k a r' w') Q) ->
  post ((m ≫= k) r w) Q.
Proof.
  intros H1 H2. apply post_bind. eapply post_weaken; [exact H1|]. exact H2.
Qed.

Lemma startsWith_movesOn d to w w1 w2 :
  startsWith d to w w1 -> movesOn w1 w2 -> startsWith d to w w2.
Proof.
  intros [m1 H1] [[m2 H2] _]. exists (m1 ++ m2).
  by rewrite H2, H1, <- app_assoc.
Qed.

Section FirstSend.
Context {codec : Codec}.

Lemma receiveDatagram_first_send (n : Z) (r : receiver) (w : world) (c : UDPConn)
    (d : bytes) :
  conn r = Some c -> isOpen w = true -> hd false (txfail w) = false ->
  slice (send r) 0 n = Some d ->
  post (receiveDatagram n r w)
       (fun _ r' w' => Rretry (r, w) (r', w') /\ startsWith d (addr r) w w').
Proof.
  intros Hc Ho Ht Hd. unfold receiveDatagram. munfold.
  unfold SetReadDeadline. rewrite Hc, Ho, Hd.
  unfold WriteToUDP. munfold. rewrite Hc, Ho.
  destruct (txfail w) as [|[] t] eqn:Htx; [|done|].
  - eapply post_weaken; [apply readLoop_keeps|].
    intros ? r' w' [[Hcfg Hmv] Hre]. simpl in *.
    destruct Hmv as ([more Hm] & Hcl & Hin). simpl in *.
    rewrite <- app_assoc in Hm.
    split; [|by exists more].
    split; [|done]. split; [done|]. split; [by eexists|done].
  - eapply post_weaken; [apply readLoop_keeps|].
    intros ? r' w' [[Hcfg Hmv] Hre]. simpl in *.
    destruct Hmv as ([more Hm] & Hcl & Hin). simpl in *.
    rewrite <- app_assoc in Hm.
    split; [|by exists more].
    split; [|done]. split; [done|]. split; [by eexists|done].
Qed.

Lemma receiveWithRetry_first_send (gas : nat) (n : Z) (r : receiver) (w : world)
    (c : UDPConn) (d : bytes) :
  conn r = Some c -> isOpen w = true -> hd false (txfail w) = false ->
  slice (send r) 0 n = Some d ->
  post (receiveWithRetry gas n r w)
       (fun _ r' w' => sameConfig r r' /\ startsWith d (addr r) w w').
Proof.
  intros Hc Ho Ht Hd. unfold receiveWithRetry. munfold.
  set (r1 := set_retry _ r).
  destruct gas as [|g]; [done|]. cbn [receiveWithRetry_loop].
  eapply post_then.
  { apply (receiveDatagram_first_send n r1 w c d); done. }
  intros [[k a] err] r2 w2 [[[Hcfg Hmv] Hre] Hst]. simpl in *.
  assert (Hrest : keeps Rconfig
    (r ← get;
     if isNet err && (backoff_count (retry r) <? retries r)
     then modify (fun r => set_retry (backoff_backoff (retry r)) r);;
          receiveWithRetry_loop g n
     else mret (k, a, err))).
  { apply keeps_bind; [typeclasses eauto|apply keeps_get; typeclasses eauto|].
    intros r0. destruct (_ && _).
    - apply keeps_bind; [typeclasses eauto| |intros ?; apply receiveWithRetry_loop_keeps].
      apply keeps_modify. intros ? ?. solve_rel.
    - apply keeps_ret. typeclasses eauto. }
  eapply post_weaken; [apply Hrest|].
  intros ? r3 w3 [Hcfg3 Hmv3]. simpl in *. split.
  - etrans; [|exact Hcfg3]. etrans; [|exact Hcfg]. subst r1. by repeat split.
  - by eapply startsWith_movesOn.
Qed.

End FirstSend.

(** ** The OACK of the receiver *)

Section OACK.
Context {codec : Codec}.


End OACK.


(** The OACK for [someOptions] carries the block size and nothing else;
    for [badOptions] nothing is sent. *)
Example sendOptions_someOptions :
  accepted someOptions = {[ "blksize" := "1024" ]}
  /\ exists res r' w',
       sendOptions 3 (newReceiver (Some someOptions))
         (freshWorld [Datagram peer (wireDATA 1 [7])])
       = Ret res r' w'
       /\ res = None
       /\ outbox w' = [(wireOACK [("blksize", "1024")], peer)].
Proof.
  split; [by vm_compute|].
  eexists _, _, _. split; [vm_compute; reflexivity|]. done.
Qed.

Example sendOptions_badOptions :
  accepted badOptions = ∅
  /\ exists r',
       sendOptions 3 (newReceiver (Some badOptions)) (freshWorld []) = Ret None r' (freshWorld [])
       /\ opts r' = Some ∅.
Proof.
  split; [by vm_compute|].
  eexists. split; [vm_compute; reflexivity|]. done.
Qed.

(** ** [WriteTo] returns *)

Section Progress.
Context {codec : Codec}.

(** A read that ends without an error has used up a datagram. *)
Lemma readLoop_progress (inb : list event) :
  forall r w,
    post (readLoop inb r w)
         (fun res _ w' => res.2 = None -> (length (inbox w') < length inb)%nat).
Proof.
  induction inb as [|ev rest IH]; intros r w; cbn [readLoop].
  - repeat case_match; simpl; done.
  - assert (Hgo : forall r0,
      post (readLoop rest r0 w)
           (fun res _ w' => res.2 = None -> (length (inbox w') < length (ev :: rest))%nat)).
    { intros r0. eapply post_weaken; [apply IH|]. simpl. intros ? ? ? H1 H2.
      specialize (H1 H2). lia. }
    repeat (case_match; simplify_eq/=; try done; try apply Hgo); try (intros; lia).
    apply post_bind. eapply post_weaken; [apply abort_keeps|]. simpl. done.
Qed.

Lemma receiveDatagram_progress (n : Z) (r : receiver) (w : world) :
  post (receiveDatagram n r w)
       (fun res _ w' => res.2 = None -> (length (inbox w') < length (inbox w))%nat).
Proof.
  unfold receiveDatagram. munfold. unfold SetReadDeadline, WriteToUDP. munfold.
  repeat (case_match; simplify_eq/=; try done);
    (eapply post_weaken; [apply readLoop_progress|]); simpl; done.
Qed.

Lemma receiveWithRetry_loop_progress (n : Z) (gas : nat) :
  forall r w,
    post (receiveWithRetry_loop gas n r w)
         (fun res _ w' => res.2 = None -> (length (inbox w') < length (inbox w))%nat).
Proof.
  induction gas as [|g IH]; intros r w; [done|].
  cbn [receiveWithRetry_loop]. munfold.
  pose proof (receiveDatagram_progress n r w) as Hp.
  pose proof (receiveDatagram_keeps n r w) as Hk.
  destruct (receiveDatagram n r w) as [[[k a] err] r1 w1| |]; [|done|done].
  simpl in *. destruct Hk as [[_ (_ & _ & Hlen)] _]. simpl in Hlen.
  destruct (isNet err && _) eqn:Hc.
  - eapply post_weaken; [apply IH|]. simpl. intros ? ? ? H1 H2.
    specialize (H1 H2). lia.
  - simpl. done.
Qed.

Section WithWriter.
Context {W : Type} (Write : W -> bytes -> Z * option error * W).

Lemma deliver_runs w n : runs (deliver Write w n).
Proof.
  pose proof abort_runs. pose proof terminate_runs.
  unfold deliver. repeat runs_step.
Qed.

(** The loop of [WriteTo] returns when it may go round more often than
    there are reads to come, each retry loop more often than there are
    retries. *)
Lemma WriteTo_loop_fuel (gas : nat) (fuel : nat) :
  forall w0 n r w,
    (length (inbox w) < fuel)%nat -> (Z.to_nat (retries r) < gas)%nat ->
    WriteTo_loop Write fuel gas w0 n r w <> OutOfFuel.
Proof.
  induction fuel as [|f IH]; intros w0 n r w Hf Hg; [lia|].
  cbn [WriteTo_loop]. munfold.
  pose proof (deliver_runs w0 n r w) as Hdr.
  pose proof (deliver_keeps Write w0 n r w) as Hdk.
  destruct (deliver Write w0 n r w) as [[[w1 n1]|res] r1 wd1| |]; [|done..].
  simpl in Hdk. destruct Hdk as [(_&_&_&Hre1&_) (_ & _ & Hlen1)]. simpl in *.
  unfold ackAndWait. munfold.
  destruct (PutUint16 (send r1) 2 (block r1)) as [buf|]; [|done]. simpl.
  set (r2 := set_block _ _).
  assert (Hg2 : (Z.to_nat (retries r2) < gas)%nat) by (subst r2; simpl; lia).
  pose proof (receiveWithRetry_fuel 4 gas r2 wd1 Hg2) as Hrf.
  pose proof (receiveWithRetry_keeps gas 4 r2 wd1) as Hrk.
  assert (Hrp : post (receiveWithRetry gas 4 r2 wd1)
            (fun res _ w' => res.2 = None -> (length (inbox w') < length (inbox wd1))%nat)).
  { unfold receiveWithRetry. munfold. apply receiveWithRetry_loop_progress. }
  destruct (receiveWithRetry gas 4 r2 wd1) as [[[ll a] err] r3 w3| |]; [|done..].
  simpl in *. destruct Hrk as [(_&_&_&Hre3&_) _]. simpl in *.
  destruct err as [e|].
  - pose proof (abort_fuel e r3 w3). by destruct (abort e r3 w3).
  - simpl. apply IH.
    + specialize (Hrp eq_refl). lia.
    + simpl. subst r2. simpl in *. lia.
Qed.

Lemma sendOptions_fuel (gas : nat) (r : receiver) (w : world) :
  (Z.to_nat (retries r) < gas)%nat -> sendOptions gas r w <> OutOfFuel.
Proof.
  intros Hg. unfold sendOptions. munfold.
  pose proof (acceptOptions_sameConfig r) as (_&_&_&Hre&_).
  destruct (0 <? lenOpts (acceptOptions r)); [|done].
  destruct (packOACK _ _) as [buf m]. simpl.
  set (r2 := set_block 1 _).
  assert (Hg2 : (Z.to_nat (retries r2) < gas)%nat) by (subst r2; simpl; lia).
  pose proof (receiveWithRetry_fuel m gas r2 w Hg2) as Hrf.
  destruct (receiveWithRetry gas m r2 w) as [[[ll a] err] r3 w3| |]; [|done..].
  destruct err as [e|]; [|done].
  pose proof (abort_fuel e r3 w3). by destruct (abort e r3 w3).
Qed.

Lemma WriteTo_fuel (gas fuel : nat) (w0 : W) (r : receiver) (w : world) :
  (length (inbox w) < fuel)%nat -> (Z.to_nat (retries r) < gas)%nat ->
  WriteTo Write fuel gas w0 r w <> OutOfFuel.
Proof.
  intros Hf Hg. unfold WriteTo. munfold.
  assert (Hso : forall m : M (option error),
    (m = sendOptions gas \/ m = mret None) ->
    m r w <> OutOfFuel /\ post (m r w) (fun _ r' w' => Rconfig (r, w) (r', w'))).
  { intros m [->| ->].
    - split; [by apply sendOptions_fuel|apply sendOptions_keeps].
    - split; [done|]. simpl. reflexivity. }
  destruct (opts r).
  - destruct (Hso (sendOptions gas)) as [H1 H2]; [by left|].
    destruct (sendOptions gas r w) as [err r1 w1| |]; [|done..].
    simpl in H2. destruct H2 as [(_&_&_&Hre&_) (_&_&Hlen)]. simpl in *.
    destruct err as [e|].
    + pose proof (abort_fuel e r1 w1). by destruct (abort e r1 w1).
    + simpl. destruct (PutUint16 _ _ _); [|done]. simpl.
      apply WriteTo_loop_fuel; simpl; lia.
  - simpl. destruct (PutUint16 _ _ _); [|done]. simpl.
    by apply WriteTo_loop_fuel.
Qed.

End WithWriter.
End Progress.

(** ** When no option is taken *)

Section Fallback.
Context {codec : Codec}.

Lemma acceptOption_receive (name value : string) (r : receiver) :
  bool_decide (name = "blksize") && acceptable value = false ->
  receive (acceptOption name value r) = receive r.
Proof.
  intros Hn. unfold acceptOption.
  pose proof (setBlockSize_acceptable value r) as Hs.
  destruct (decide (name = "blksize")) as [->|Hne]; [|done].
  rewrite bool_decide_eq_true_2 in Hn by done. cbn [andb] in Hn.
  rewrite Hn in Hs. destruct Hs as (err & ->). done.
Qed.

Lemma acceptOptions_fold_receive (m : options) (r : receiver) :
  (forall v, m !! "blksize" = Some v -> acceptable v = false) ->
  receive (map_fold acceptOption r m) = receive r.
Proof.
  induction m as [|k v m Hk Hfirst IH] using map_first_key_ind; intros Hm.
  - by rewrite map_fold_empty.
  - rewrite map_fold_insert_first_key by done.
    rewrite acceptOption_receive.
    + apply IH. intros v' Hv'. apply Hm.
      rewrite lookup_insert_ne; [done|]. intros ->. congruence.
    + destruct (decide (k = "blksize")) as [->|Hne].
      * rewrite bool_decide_eq_true_2 by done. cbn [andb].
        apply Hm. by rewrite lookup_insert_eq.
      * by rewrite bool_decide_eq_false_2.
Qed.

Lemma accepted_empty (m : options) :
  accepted m = ∅ -> forall v, m !! "blksize" = Some v -> acceptable v = false.
Proof.
  intros He v Hv. destruct (acceptable v) eqn:Ha; [|done].
  assert (Hin : accepted m !! "blksize" = Some v).
  { unfold accepted. apply map_lookup_filter_Some. done. }
  rewrite He, lookup_empty in Hin. done.
Qed.

(** No option is taken: the loop of [sendOptions] empties the map and
    changes nothing else. *)
Lemma acceptOptions_rejected (r : receiver) (m : options) :
  opts r = Some m -> accepted m = ∅ -> acceptOptions r = set_opts (Some ∅) r.
Proof.
  intros Hr He.
  destruct (acceptOptions_accepted r m Hr) as (buf & Hacc).
  assert (Hb : receive (acceptOptions r) = receive r).
  { unfold acceptOptions. rewrite Hr. apply acceptOptions_fold_receive.
    by apply accepted_empty. }
  rewrite Hacc in *. simpl in Hb. subst buf. rewrite He. by destruct r.
Qed.

End Fallback.

Section FirstAck.
Context {codec : Codec} {W : Type} (Write : W -> bytes -> Z * option error * W).

(** With no block to write out, the first datagram the loop of [WriteTo]
    sends is the acknowledgement of the current block. *)
Lemma WriteTo_loop_first_ACK (fuel gas : nat) (w0 : W) (n : Z) (r : receiver)
    (w : world) (c : UDPConn) (buf d : bytes) :
  l r <= 0 -> conn r = Some c -> isOpen w = true -> hd false (txfail w) = false ->
  PutUint16 (send r) 2 (block r) = Some buf -> slice buf 0 4 = Some d ->
  post (WriteTo_loop Write fuel gas w0 n r w)
       (fun _ _ w' => startsWith d (addr r) w w').
Proof.
  intros Hl Hc Ho Ht Hput Hd. destruct fuel as [|f]; [done|].
  cbn [WriteTo_loop]. unfold deliver, ackAndWait. munfold.
  destruct (Z.ltb_spec 0 (l r)) as [?|_]; [lia|]. rewrite Hput. simpl.
  set (r2 := set_block _ _).
  pose proof (receiveWithRetry_first_send gas 4 r2 w c d Hc Ho Ht Hd) as Hfirst.
  destruct (receiveWithRetry gas 4 r2 w) as [[[ll a] err] r3 w3| |]; [|done..].
  simpl in Hfirst. destruct Hfirst as [_ Hst]. change (addr r2) with (addr r) in Hst.
  destruct err as [e|].
  - pose proof (abort_keeps e r3 w3) as Hab.
    destruct (abort e r3 w3) as [? r4 w4| |]; [|done..].
    simpl in *. destruct Hab as [[_ Hmv] _]. by eapply startsWith_movesOn.
  - simpl. eapply post_weaken; [apply WriteTo_loop_keeps|].
    intros ? r4 w4 [_ Hmv]. simpl in *. by eapply startsWith_movesOn.
Qed.

End FirstAck.

(** ** A DATA packet the receiver waits for *)

Section Data.
Context {codec : Codec}.

Lemma readLoop_DATA (src : UDPAddr) (payload p : bytes) (rest : list event)
    (r : receiver) (w : world) (c : UDPConn) :
  conn r = Some c -> isOpen w = true -> discards r src = false ->
  parsePacket (firstn (length (receive r)) payload) = inr (pDATA p) ->
  DATA_block p = block r ->
  readLoop (Datagram src payload :: rest) r w
  = Ret (Z.min (len payload) (len (receive r)), Some src, None)
      (set_tid (Port src) (set_receive (copy (receive r) payload) r))
      (set_inbox rest w).
Proof.
  intros Hc Ho Hd Hp Hb. cbn [readLoop]. rewrite Hc, Ho. cbn [negb].
  change (discards (set_receive (copy (receive r) payload) r) src)
    with (discards r src). rewrite Hd.
  cbn [receive set_receive]. rewrite take_read, Hp.
  cbn [block set_tid set_receive]. rewrite Hb, Z.eqb_refl. done.
Qed.

(** One attempt that is answered by the DATA packet waited for: the
    datagram of the receiver goes out, the packet is read, its source
    port is the transfer identifier from now on. *)
Lemma receiveDatagram_DATA (n : Z) (d : bytes) (src : UDPAddr) (payload p : bytes)
    (rest : list event) (r : receiver) (w : world) (c : UDPConn) :
  conn r = Some c -> isOpen w = true -> hd false (txfail w) = false ->
  slice (send r) 0 n = Some d ->
  inbox w = Datagram src payload :: rest -> discards r src = false ->
  parsePacket (firstn (length (receive r)) payload) = inr (pDATA p) ->
  DATA_block p = block r ->
  receiveDatagram n r w
  = Ret (Z.min (len payload) (len (receive r)), Some src, None)
      (set_tid (Port src) (set_receive (copy (receive r) payload) r))
      {| inbox := rest; outbox := outbox w ++ [(d, addr r)];
         closes := closes w; txfail := tl (txfail w) |}.
Proof.
  intros Hc Ho Ht Hd Hin Hdis Hp Hb. unfold receiveDatagram. munfold.
  unfold SetReadDeadline. rewrite Hc, Ho, Hd.
  unfold WriteToUDP. munfold. rewrite Hc, Ho.
  destruct (txfail w) as [|[] t] eqn:Htx; [|done|];
    cbn [inbox]; rewrite Hin; by erewrite readLoop_DATA.
Qed.

Lemma slice_copy_payload (buf payload : bytes) :
  4 <= len payload -> len payload <= len buf ->
  slice (copy buf payload) 4 (Z.min (len payload) (len buf)) = Some (skipn 4 payload).
Proof.
  intros H4 Hle. rewrite Z.min_l by done. unfold len in *.
  rewrite slice_Some; [|lia|unfold len; rewrite length_copy; lia].
  f_equal. unfold copy.
  rewrite (take_ge payload (length buf)) by lia.
  rewrite drop_app_le by lia.
  rewrite take_app_le by (rewrite length_drop; lia).
  apply take_ge. rewrite length_drop. lia.
Qed.

End Data.
(** ** The handshake without options *)

Lemma bind_Ret {A B} (m : M A) (k : A -> M B) r w a r' w' :
  m r w = Ret a r' w' -> (m ≫= k) r w = k a r' w'.
Proof. intros H. unfold mbind, M_bind, bind. by rewrite H. Qed.

Section Steps.
Context {codec : Codec} {W : Type} (Write : W -> bytes -> Z * option error * W).

Lemma deliver_nothing (w0 : W) (n : Z) (r : receiver) (w : world) :
  l r <= 0 -> deliver Write w0 n r w = Ret (inl (w0, n)) r w.
Proof.
  intros Hl. unfold deliver. munfold.
  by destruct (Z.ltb_spec 0 (l r)) as [?|_]; [lia|].
Qed.

Lemma deliver_last (w0 w1 : W) (n k : Z) (r : receiver) (w : world) (payload : bytes) :
  0 < l r -> slice (receive r) 4 (l r) = Some payload ->
  Write w0 payload = (k, None, w1) ->
  l r < len (receive r) -> autoTerm r = false ->
  deliver Write w0 n r w = Ret (inr (wrap64 (n + k), None)) r w.
Proof.
  intros Hl Hs Hw Hlt Ha. unfold deliver. munfold.
  destruct (Z.ltb_spec 0 (l r)) as [_|?]; [|lia].
  rewrite Hs. simpl. rewrite Hw.
  destruct (Z.ltb_spec (l r) (len (receive r))) as [_|?]; [|lia].
  by rewrite Ha.
Qed.

(** The round trip of the loop of [WriteTo] answered at once by the
    block waited for. *)
Lemma ackAndWait_DATA (gas : nat) (n : Z) (buf d : bytes) (src : UDPAddr)
    (payload p : bytes) (rest : list event) (r : receiver) (w : world) (c : UDPConn) :
  conn r = Some c -> isOpen w = true -> hd false (txfail w) = false ->
  PutUint16 (send r) 2 (block r) = Some buf -> slice buf 0 4 = Some d ->
  inbox w = Datagram src payload :: rest -> discards r src = false ->
  parsePacket (firstn (length (receive r)) payload) = inr (pDATA p) ->
  DATA_block p = (block r + 1) mod 65536 ->
  ackAndWait (S gas) n r w
  = Ret None
      (set_l (Z.min (len payload) (len (receive r)))
         (set_tid (Port src)
            (set_receive (copy (receive r) payload)
               (set_retry (backoff_reset (retry r))
                  (set_block ((block r + 1) mod 65536) (set_send buf r))))))
      {| inbox := rest; outbox := outbox w ++ [(d, addr r)];
         closes := closes w; txfail := tl (txfail w) |}.
Proof.
  intros Hc Ho Ht Hput Hd Hin Hdis Hp Hb.
  unfold ackAndWait. munfold. rewrite Hput. simpl.
  unfold receiveWithRetry. munfold. cbn [receiveWithRetry_loop]. munfold.
  erewrite (receiveDatagram_DATA 4 d src payload p rest);
    [reflexivity|exact Hc|exact Ho|exact Ht|exact Hd|exact Hin|exact Hdis|exact Hp|exact Hb].
Qed.

End Steps.

Section NoOptionLeft.
Context {codec : Codec} {W : Type} (Write : W -> bytes -> Z * option error * W).

(** C10.  A WRQ with options of which none is taken, at a receiver as the
    listener builds it (block 0, nothing received).  [sendOptions] sends
    nothing, no OACK, and returns without an error, the map emptied.
    Whatever the network then does, the first datagram [WriteTo] sends is
    the ACK of block 0.  The receiver then waits for block 1: when the
    first datagram that passes the filter is a DATA packet with block
    number 1, shorter than the receive buffer, its payload is written out
    and [WriteTo] returns the count of the writer with no error, having
    sent the ACK of block 0 and nothing else. *)
Theorem no_option_left_falls_back
    (fuel gas : nat) (w0 : W) (r : receiver) (w : world) (m : options) (c : UDPConn) :
  opts r = Some m -> m <> ∅ -> accepted m = ∅ ->
  block r = 0 -> l r = 0 ->
  conn r = Some c -> isOpen w = true -> hd false (txfail w) = false ->
  4 <= len (send r) ->
  (length (inbox w) < fuel)%nat -> (Z.to_nat (retries r) < gas)%nat ->
  sendOptions gas r w = Ret None (set_opts (Some ∅) r) w
  /\ lands (WriteTo Write fuel gas w0 r w)
           (fun _ _ w' => startsWith (wireACK 0) (addr r) w w')
  /\ (forall src payload rest p k w1,
        inbox w = Datagram src payload :: rest -> discards r src = false ->
        parsePacket (firstn (length (receive r)) payload) = inr (pDATA p) ->
        DATA_block p = 1 ->
        4 <= len payload < len (receive r) -> autoTerm r = false ->
        Write w0 (skipn 4 payload) = (k, None, w1) ->
        exists r' w',
          WriteTo Write fuel gas w0 r w = Ret (wrap64 k, None) r' w'
          /\ outbox w' = outbox w ++ [(wireACK 0, addr r)]
          /\ block r' = 1 /\ l r' = len payload).
Proof.
  intros Hr Hne He Hb Hl Hc Ho Ht Hlen Hf Hg.
  pose proof (acceptOptions_rejected r m Hr He) as Hacc.
  assert (Hso : sendOptions gas r w = Ret None (set_opts (Some ∅) r) w).
  { unfold sendOptions. munfold. rewrite Hacc. unfold lenOpts. simpl.
    by rewrite map_size_empty. }
  destruct (ack_header (send r) (block r) Hlen) as (b0 & buf & H0 & H2 & Hbuf & Hd).
  rewrite Hb in *.
  assert (Hstart : WriteTo Write fuel gas w0 r w
                   = WriteTo_loop Write fuel gas w0 0
                       (set_send b0 (set_opts (Some ∅) r)) w).
  { unfold WriteTo. munfold. rewrite Hr, Hso. simpl. by rewrite H0. }
  split; [exact Hso|]. split.
  - apply lands_post; [|by apply WriteTo_fuel].
    rewrite Hstart.
    assert (Hl0 : l (set_send b0 (set_opts (Some ∅) r)) <= 0) by (simpl; lia).
    assert (H2' : PutUint16 (send (set_send b0 (set_opts (Some ∅) r))) 2
                    (block (set_send b0 (set_opts (Some ∅) r))) = Some buf).
    { simpl. by rewrite Hb. }
    exact (WriteTo_loop_first_ACK Write fuel gas w0 0 _ w c buf (wireACK 0)
             Hl0 Hc Ho Ht H2' Hd).
  - intros src payload rest p k w1 Hin Hdis Hp Hblk Hpl Hauto Hw.
    rewrite Hstart.
    destruct fuel as [|[|f]]; [lia| |].
    { rewrite Hin in Hf. simpl in Hf. lia. }
    set (r0 := set_send b0 (set_opts (Some ∅) r)).
    assert (Hmin : Z.min (len payload) (len (receive r)) = len payload) by lia.
    destruct gas as [|g]; [lia|].
    cbn [WriteTo_loop].
    erewrite bind_Ret by (apply deliver_nothing; simpl; lia).
    cbv beta iota.
    erewrite bind_Ret; cycle 1.
    { apply (ackAndWait_DATA g 0 buf (wireACK 0) src payload p rest r0 w c);
        try done.
      - simpl. by rewrite Hb.
      - simpl. by rewrite Hb. }
    cbv beta iota. cbn [WriteTo_loop].
    erewrite bind_Ret; cycle 1.
    { eapply deliver_last; simpl.
      - lia.
      - apply slice_copy_payload; lia.
      - exact Hw.
      - rewrite len_copy. lia.
      - done. }
    eexists _, _. split; [reflexivity|]. simpl. rewrite Hb. done.
Qed.

End NoOptionLeft.

Lemma no_option_left_falls_back_witness :
  let r := newReceiver (Some badOptions) in
  let w := freshWorld [Datagram peer (wireDATA 1 [7; 8; 9])] in
  sendOptions 3 r w = Ret None (set_opts (Some ∅) r) w
  /\ lands (WriteTo sink 2 3 [] r w)
           (fun _ _ w' => startsWith (wireACK 0) (addr r) w w')
  /\ (forall src payload rest p k w1,
        inbox w = Datagram src payload :: rest -> discards r src = false ->
        parsePacket (firstn (length (receive r)) payload) = inr (pDATA p) ->
        DATA_block p = 1 ->
        4 <= len payload < len (receive r) -> autoTerm r = false ->
        sink [] (skipn 4 payload) = (k, None, w1) ->
        exists r' w',
          WriteTo sink 2 3 [] r w = Ret (wrap64 k, None) r' w'
          /\ outbox w' = outbox w ++ [(wireACK 0, addr r)]
          /\ block r' = 1 /\ l r' = len payload).
Proof.
  apply (no_option_left_falls_back sink 2 3 []
           (newReceiver (Some badOptions))
           (freshWorld [Datagram peer (wireDATA 1 [7; 8; 9])]) badOptions theConn);
    try reflexivity; by vm_compute.
Defined.

(** The run of the witness: one ACK of block 0 is all that is sent, and
    the three bytes of block 1 are written out. *)
Example no_option_left_run :
  exists r' w',
    WriteTo sink 2 3 [] (newReceiver (Some badOptions))
      (freshWorld [Datagram peer (wireDATA 1 [7; 8; 9])])
    = Ret (3, None) r' w'
    /\ outbox w' = [(wireACK 0, peer)] /\ opts r' = Some ∅.
Proof. eexists _, _. split; [vm_compute; reflexivity|]. done. Qed.

(** A DATA packet with another block number is not what the receiver
    waits for: nothing is written out and the round trip ends as one
    that nothing has answered. *)
Example no_option_left_other_block :
  exists r' w',
    WriteTo sink 2 3 [] (newReceiver (Some badOptions))
      (freshWorld [Datagram peer (wireDATA 2 [7; 8; 9])])
    = Ret (0, Some errTimeout) r' w'
    /\ firstn 3 (outbox w') = repeat (wireACK 0, peer) 3.
Proof. eexists _, _. split; [vm_compute; reflexivity|]. done. Qed.

(** ** Termination with dallying *)

Section Dally.
Context {codec : Codec}.


Lemma ack_at_block (s : bytes) (blk : Z) :
  firstn 2 s = [0; opACK] -> 4 <= len s ->
  exists buf, PutUint16 s 2 blk = Some buf /\ slice buf 0 4 = Some (wireACK blk).
Proof.
  intros H2 Hl. unfold len in Hl.
  destruct s as [|a0 [|a1 [|a2 [|a3 s]]]]; simpl in Hl; try lia.
  simpl in H2. simplify_eq.
  exists (wireACK blk ++ s). split.
  - unfold PutUint16. rewrite slice_Some; [done|lia|]. unfold len. simpl. lia.
  - rewrite slice_Some; [done|lia|]. unfold len, wireACK. simpl. lia.
Qed.




End Dally.


(** Three retransmissions are all read; the third is not acknowledged
    again and [terminate] returns its error. *)
Example terminate_dallying_three :
  exists r' w',
    terminate dallyingReceiver
      (freshWorld (repeat (Datagram peer (wireDATA 1 [7; 8; 9])) 3))
    = Ret (Some (Errorf "dallying termination failed")) r' w'
    /\ outbox w' = repeat (wireACK 1, peer) 3 /\ inbox w' = [] /\ closes w' = 1%nat.
Proof. eexists _, _. split; [vm_compute; reflexivity|]. done. Qed.

(** ** The life of the socket *)


(** The same transfer without [autoTerm], as the listener starts it:
    the socket is closed once. *)
Example session_closes_once :
  exists r' w',
    session 2 3 (Some copyHandler) "bar" (newReceiver None)
      (freshWorld [Datagram peer (wireDATA 1 [7; 8; 9])])
    = Ret () r' w'
    /\ closes w' = 1%nat
    /\ outbox w' = [(wireACK 0, peer); (wireACK 1, peer)].
Proof. eexists _, _. split; [vm_compute; reflexivity|]. done. Qed.

(** * Further properties of the code *)

(** ** The configuration of the server *)



Section Configured.
Context {codec : Codec}.


End Configured.


(** ** What the listener drops *)

Section Drops.
Context {codec : Codec}.

(** [handlePacket] starts a session for a request only.  A datagram that
    does not parse is dropped with the error of the parser; one that
    parses as DATA, ACK, OACK or ERROR is dropped with an error; a
    request whose fields do not unpack is dropped; and when no socket can
    be opened for a request the error of [net.ListenUDP] is returned.  In
    none of these cases is a receiver or a sender made. *)
Theorem handlePacket_drops
    (s : Server.Server) (listen : error + UDPConn) (localAddr : option bytes)
    (remoteAddr : UDPAddr) (buffer b : bytes) (n : Z) :
  slice buffer 0 n = Some b ->
  (forall err, parsePacket b = inl err ->
     handlePacket s listen localAddr remoteAddr buffer n = Some (Dropped err))
  /\ (forall p, parsePacket b = inr (pDATA p) \/ parsePacket b = inr (pACK p)
                \/ parsePacket b = inr (pOACK p) \/ parsePacket b = inr (pERROR p) ->
        exists err, handlePacket s listen localAddr remoteAddr buffer n = Some (Dropped err))
  /\ (forall p err, parsePacket b = inr (pWRQ p) \/ parsePacket b = inr (pRRQ p) ->
        unpackRQ p = inl err ->
        exists err', handlePacket s listen localAddr remoteAddr buffer n = Some (Dropped err'))
  /\ (forall p rq err, parsePacket b = inr (pWRQ p) \/ parsePacket b = inr (pRRQ p) ->
        unpackRQ p = inr rq -> listen = inl err ->
        handlePacket s listen localAddr remoteAddr buffer n = Some (Dropped err)).
Proof.
  intros Hs. unfold handlePacket. rewrite Hs. repeat split.
  - intros err ->. done.
  - intros p [->|[->|[->| ->]]]; by eexists.
  - intros p err [->| ->] ->; by eexists.
  - intros p [[f m] o] err [->| ->] -> ->; done.
Qed.

(** The converse: a receiver is started only for a datagram that parses
    as a WRQ whose fields unpack, on a socket that could be opened; it
    holds that socket, the mode and the options of the request, and two
    buffers of [datagramLength] bytes. *)
Theorem handlePacket_receiver_only_for_WRQ
    (s : Server.Server) (listen : error + UDPConn) (localAddr : option bytes)
    (remoteAddr : UDPAddr) (buffer : bytes) (n : Z) (filename : string) (wt : receiver) :
  handlePacket s listen localAddr remoteAddr buffer n = Some (ServeWRQ filename wt) ->
  exists b p c,
    slice buffer 0 n = Some b /\ parsePacket b = inr (pWRQ p)
    /\ unpackRQ p = inr (filename, mode wt, opts wt) /\ listen = inr c
    /\ conn wt = Some c /\ localIP wt = localAddr
    /\ len (send wt) = datagramLength /\ len (receive wt) = datagramLength
    /\ block wt = 0 /\ l wt = 0 /\ dally wt = false /\ autoTerm wt = false.
Proof.
  intros H. unfold handlePacket in H.
  destruct (slice buffer 0 n) as [b|] eqn:Hs; [|done].
  destruct (parsePacket b) as [err|[p|p|p|p|p|p]] eqn:Hp; simplify_eq/=.
  - destruct (unpackRQ p) as [err|[[f m] o]]; [done|]. by destruct listen.
  - destruct (unpackRQ p) as [err|[[f m] o]] eqn:Hu; [done|].
    destruct listen as [err|c]; simplify_eq/=.
    exists b, p, c. repeat split; done.
Qed.

End Drops.

Lemma handlePacket_drops_witness :
  (forall err, parsePacket (wireACK 3) = inl err ->
     handlePacket server (inr theConn) None peer (readInto (wireACK 3)) 4
     = Some (Dropped err))
  /\ (forall p, parsePacket (wireACK 3) = inr (pDATA p) \/ parsePacket (wireACK 3) = inr (pACK p)
                \/ parsePacket (wireACK 3) = inr (pOACK p)
                \/ parsePacket (wireACK 3) = inr (pERROR p) ->
        exists err, handlePacket server (inr theConn) None peer (readInto (wireACK 3)) 4
                    = Some (Dropped err))
  /\ (forall p err, parsePacket (wireACK 3) = inr (pWRQ p) \/ parsePacket (wireACK 3) = inr (pRRQ p) ->
        unpackRQ p = inl err ->
        exists err', handlePacket server (inr theConn) None peer (readInto (wireACK 3)) 4
                     = Some (Dropped err'))
  /\ (forall p rq err, parsePacket (wireACK 3) = inr (pWRQ p) \/ parsePacket (wireACK 3) = inr (pRRQ p) ->
        unpackRQ p = inr rq -> @inr error UDPConn theConn = inl err ->
        handlePacket server (inr theConn) None peer (readInto (wireACK 3)) 4
        = Some (Dropped err)).
Proof.
  apply (handlePacket_drops server (inr theConn) None peer (readInto (wireACK 3))
           (wireACK 3) 4).
  by vm_compute.
Defined.

Lemma handlePacket_receiver_only_for_WRQ_witness :
  exists b p c,
    slice (readInto writeRequest) 0 (len writeRequest) = Some b
    /\ parsePacket b = inr (pWRQ p)
    /\ unpackRQ p = inr ("bar", mode (newReceiver None), opts (newReceiver None))
    /\ @inr error UDPConn theConn = inr c
    /\ conn (newReceiver None) = Some c /\ localIP (newReceiver None) = None
    /\ len (send (newReceiver None)) = datagramLength
    /\ len (receive (newReceiver None)) = datagramLength
    /\ block (newReceiver None) = 0 /\ l (newReceiver None) = 0
    /\ dally (newReceiver None) = false /\ autoTerm (newReceiver None) = false.
Proof.
  apply (handlePacket_receiver_only_for_WRQ server (inr theConn) None peer
           (readInto writeRequest) (len writeRequest) "bar" (newReceiver None)).
  by vm_compute.
Defined.

(** ** Reading a request *)

Section Reading.
Context {codec : Codec}.

Lemma request_in_buffer (payload : bytes) :
  slice (copy (make datagramLength) payload) 0
        (Z.min (len payload) (len (copy (make datagramLength) payload)))
  = Some (firstn (Z.to_nat datagramLength) payload).
Proof.
  rewrite len_copy. rewrite slice_Some.
  - f_equal. rewrite Z.sub_0_r. change (Z.to_nat 0) with 0%nat. rewrite drop_0.
    rewrite take_read. unfold make. by rewrite repeat_length.
  - unfold len. lia.
  - rewrite len_copy. lia.
Qed.

(** The slice [buffer[:n]] of [handlePacket] is always in range when the
    datagram comes from one of the [processRequest] functions, so that
    these never panic; and what is parsed is the datagram cut to
    [datagramLength] bytes: a longer request is handled as its first 516
    bytes are. *)
Theorem processRequest_cuts_to_datagramLength
    (s : Server.Server) (listen : error + UDPConn) (a : arrival) :
  processRequest4 s listen a <> None
  /\ processRequest s listen a <> None
  /\ (forall payload control src,
        processRequest4 s listen (Arrived payload control src)
        = processRequest4 s listen
            (Arrived (firstn (Z.to_nat datagramLength) payload) control src)
        /\ processRequest s listen (Arrived payload control src)
           = processRequest s listen
               (Arrived (firstn (Z.to_nat datagramLength) payload) control src)).
Proof.
  assert (Hcut : forall payload : bytes,
    firstn (Z.to_nat datagramLength) (firstn (Z.to_nat datagramLength) payload)
    = firstn (Z.to_nat datagramLength) payload).
  { intros. by rewrite take_take, Nat.min_id. }
  split; [|split].
  - destruct a as [err|payload control src]; [done|].
    unfold processRequest4, handlePacket. by rewrite request_in_buffer.
  - destruct a as [err|payload control src]; [done|].
    unfold processRequest, handlePacket. by rewrite request_in_buffer.
  - intros payload control src. unfold processRequest4, processRequest, handlePacket.
    rewrite !request_in_buffer, Hcut. done.
Qed.

(** The local address of a session: the destination of the control
    message when the platform gives one, nil otherwise, and always nil on
    the fallback path; the address of the peer is the source of the
    datagram. *)
Theorem processRequest_localIP
    (s : Server.Server) (listen : error + UDPConn)
    (payload : bytes) (control : option ControlMessage) (src : UDPAddr)
    (filename : string) (wt : receiver) :
  (processRequest4 s listen (Arrived payload control src) = Some (ServeWRQ filename wt) ->
     localIP wt = match control with Some cm => Dst cm | None => None end
     /\ addr wt = src)
  /\ (processRequest s listen (Arrived payload control src) = Some (ServeWRQ filename wt) ->
      localIP wt = None /\ addr wt = src).
Proof.
  assert (Hgen : forall la buf n,
    handlePacket s listen la src buf n = Some (ServeWRQ filename wt) ->
    localIP wt = la /\ addr wt = src).
  { intros la buf n H. unfold handlePacket in H.
    repeat (case_match; simplify_eq/=); done. }
  split; intros H; unfold processRequest4, processRequest in H;
    by apply Hgen in H.
Qed.

End Reading.

Lemma processRequest_localIP_witness :
  (processRequest4 server (inr theConn)
     (Arrived writeRequest (Some {| Dst := Some [10; 0; 0; 9] |}) peer)
   = Some (ServeWRQ "bar" (localReceiver (Some [10; 0; 0; 9]))) ->
     localIP (localReceiver (Some [10; 0; 0; 9]))
     = match Some {| Dst := Some [10; 0; 0; 9] |} with
       | Some cm => Dst cm
       | None => None
       end
     /\ addr (localReceiver (Some [10; 0; 0; 9])) = peer)
  /\ (processRequest server (inr theConn)
        (Arrived writeRequest (Some {| Dst := Some [10; 0; 0; 9] |}) peer)
      = Some (ServeWRQ "bar" (localReceiver (Some [10; 0; 0; 9]))) ->
      localIP (localReceiver (Some [10; 0; 0; 9])) = None
      /\ addr (localReceiver (Some [10; 0; 0; 9])) = peer).
Proof.
  apply (processRequest_localIP server (inr theConn) writeRequest
           (Some {| Dst := Some [10; 0; 0; 9] |}) peer "bar"
           (localReceiver (Some [10; 0; 0; 9]))).
Defined.

(** The session of the witness is the one that is started. *)
Example processRequest4_localReceiver :
  processRequest4 server (inr theConn)
    (Arrived writeRequest (Some {| Dst := Some [10; 0; 0; 9] |}) peer)
  = Some (ServeWRQ "bar" (localReceiver (Some [10; 0; 0; 9])))
  /\ processRequest server (inr theConn)
       (Arrived writeRequest (Some {| Dst := Some [10; 0; 0; 9] |}) peer)
     = Some (ServeWRQ "bar" (localReceiver None)).
Proof. split; by vm_compute. Qed.

(** ** [abort] and [terminate] *)

Section AbortTerminate.
Context {codec : Codec}.

Lemma terminate_nil (r : receiver) (w : world) :
  conn r = None -> terminate r w = Ret None r w.
Proof. intros Hc. unfold terminate. munfold. by rewrite Hc. Qed.

(** [abort] always leaves the receiver without a connection.  When it
    found one, the socket has been closed once, whether or not the ERROR
    packet could be sent, and at most that one datagram went out, to the
    address of the peer; when it found none, nothing has changed.  After
    it, every further [abort] and [terminate] does nothing. *)
Theorem abort_closes_and_forgets (e e' : error) (r : receiver) (w : world) :
  lands (abort e r w)
    (fun res r' w' =>
       conn r' = None
       /\ match conn r with
          | None => r' = r /\ w' = w /\ res = None
          | Some _ =>
              closes w' = S (closes w)
              /\ (outbox w' = outbox w
                  \/ exists d, outbox w' = outbox w ++ [(d, addr r)] /\ res = None)
          end
       /\ abort e' r' w' = Ret None r' w'
       /\ terminate r' w' = Ret None r' w').
Proof.
  unfold abort. munfold. destruct (conn r) eqn:Hc.
  - destruct (packERROR (send r) 1 (Error e)) as [buf n].
    cbv beta iota. destruct (slice buf 0 n) as [d|]; [|done].
    unfold ret, WriteToUDP. cbn [conn set_send]. rewrite Hc.
    destruct (isOpen w); [destruct (txfail w) as [|[] t]|]; simpl;
      repeat split; try done; eauto.
  - simpl. rewrite Hc. repeat split; try done;
      first [by apply abort_nil | by apply terminate_nil].
Qed.

(** [terminate] without dallying, on a receiver that holds a
    connection: the block number is written into the send buffer, the
    four bytes of the ACK are sent to the peer, and the socket is closed,
    also when the send fails, in which case its error is returned.  The
    field [conn] is left as it was. *)
Theorem terminate_sends_final_ACK
    (r : receiver) (w : world) (c : UDPConn) (buf d : bytes) :
  conn r = Some c -> dally r = false ->
  PutUint16 (send r) 2 (block r) = Some buf -> slice buf 0 4 = Some d ->
  exists res w',
    terminate r w = Ret res (set_send buf r) w'
    /\ closes w' = S (closes w) /\ inbox w' = inbox w
    /\ (isOpen w = true -> hd false (txfail w) = false ->
        res = None /\ outbox w' = outbox w ++ [(d, addr r)])
    /\ (isOpen w = false \/ hd false (txfail w) = true ->
        res <> None /\ outbox w' = outbox w).
Proof.
  intros Hc Hd Hput Hs. unfold terminate. munfold. rewrite Hc, Hput.
  unfold ret. cbv beta iota. rewrite Hd, Hs. unfold WriteToUDP. cbn [conn set_send]. rewrite Hc.
  destruct (isOpen w) eqn:Ho; [destruct (txfail w) as [|[] t] eqn:Ht|]; simpl;
    eexists _, _; (split; [reflexivity|]); simpl; repeat split; try done;
    try (intros [?|?]; done); try (by intros [?|?]);
    by destruct H.
Qed.

End AbortTerminate.

Lemma terminate_sends_final_ACK_witness :
  exists res w',
    terminate finishedReceiver (freshWorld [])
    = Ret res (set_send (wireACK 1 ++ skipn 4 (make datagramLength)) finishedReceiver) w'
    /\ closes w' = 1%nat /\ inbox w' = []
    /\ (isOpen (freshWorld []) = true -> hd false (txfail (freshWorld [])) = false ->
        res = None /\ outbox w' = [] ++ [(wireACK 1, peer)])
    /\ (isOpen (freshWorld []) = false \/ hd false (txfail (freshWorld [])) = true ->
        res <> None /\ outbox w' = []).
Proof.
  apply (terminate_sends_final_ACK finishedReceiver (freshWorld []) theConn
           (wireACK 1 ++ skipn 4 (make datagramLength)) (wireACK 1));
    by vm_compute.
Defined.

(** ** Packets in [receiveDatagram] *)

Section Packets.
Context {codec : Codec}.

(** A datagram from the peer that parses but is not what the receiver
    waits for (a stale or early DATA block, an ACK, a request, an OACK
    after the first block) is passed over without a reply: the loop goes
    on to the next read.  It has set the transfer identifier to its
    source port and overwritten the receive buffer; block counter,
    options and send buffer are as they were. *)
Theorem readLoop_skips
    (src : UDPAddr) (payload : bytes) (p : packet) (rest : list event)
    (r : receiver) (w : world) (c : UDPConn) :
  conn r = Some c -> isOpen w = true -> discards r src = false ->
  parsePacket (firstn (length (receive r)) payload) = inr p ->
  skipped r p ->
  readLoop (Datagram src payload :: rest) r w
  = readLoop rest (set_tid (Port src) (set_receive (copy (receive r) payload) r)) w.
Proof.
  intros Hc Ho Hd Hp Hs. cbn [readLoop]. rewrite Hc, Ho. cbn [negb].
  change (discards (set_receive (copy (receive r) payload) r) src)
    with (discards r src). rewrite Hd.
  cbn [receive set_receive]. rewrite take_read, Hp.
  destruct p; simpl in Hs; try done.
  - cbn [block set_tid set_receive].
    by destruct (Z.eqb_spec (DATA_block p) (block r)).
  - cbn [block set_tid set_receive].
    by destruct (Z.eqb_spec (block r) 1).
Qed.

Lemma applyOption_rejected (name value : string) (r : receiver) :
  bool_decide (name = "blksize") && acceptable value = false ->
  applyOption name value r = r.
Proof.
  intros Hn. unfold applyOption.
  pose proof (setBlockSize_acceptable value r) as Hs.
  destruct (decide (name = "blksize")) as [->|Hne]; [|done].
  rewrite bool_decide_eq_true_2 in Hn by done. cbn [andb] in Hn.
  rewrite Hn in Hs. destruct Hs as (err & ->). done.
Qed.

Lemma applyOptions_rejected (os : options) (r : receiver) :
  (forall v, os !! "blksize" = Some v -> acceptable v = false) ->
  map_fold applyOption r os = r.
Proof.
  induction os as [|k v m Hk Hfirst IH] using map_first_key_ind; intros Hm.
  - by rewrite map_fold_empty.
  - rewrite map_fold_insert_first_key by done.
    rewrite IH.
    + apply applyOption_rejected.
      destruct (decide (k = "blksize")) as [->|Hne].
      * rewrite bool_decide_eq_true_2 by done. cbn [andb].
        apply Hm. by rewrite lookup_insert_eq.
      * by rewrite bool_decide_eq_false_2.
    + intros v' Hv'. apply Hm.
      rewrite lookup_insert_ne; [done|]. intros ->. congruence.
Qed.

Lemma applyOptions_accepted (os : options) (r : receiver) (v : string) (n : Z) :
  os !! "blksize" = Some v -> Atoi v = inr n -> 512 <= n <= 65464 ->
  map_fold applyOption r os = set_receive (make (n + 4)) r.
Proof.
  intros Hv Ha Hn.
  assert (Hacc : acceptable v = true) by (apply acceptable_spec; eauto).
  revert Hv. induction os as [|k v' m Hk Hfirst IH] using map_first_key_ind; intros Hv.
  - by rewrite lookup_empty in Hv.
  - rewrite map_fold_insert_first_key by done.
    destruct (decide (k = "blksize")) as [->|Hne].
    + rewrite lookup_insert_eq in Hv. simplify_eq.
      rewrite applyOptions_rejected.
      * unfold applyOption. rewrite decide_True by done.
        pose proof (setBlockSize_acceptable v r) as Hs. rewrite Hacc in Hs.
        destruct Hs as (n' & Ha' & _ & ->). simpl. congruence.
      * intros v' Hv'. congruence.
    + rewrite lookup_insert_ne in Hv by done. rewrite IH by done.
      apply applyOption_rejected. by rewrite bool_decide_eq_false_2.
Qed.

(** An OACK from the peer while the receiver waits for the first block
    is taken: the call returns no bytes and no error, the block counter
    goes back to 0 (so that the next acknowledgement is the ACK of block
    0) and the options of the receiver are those of the OACK.  A
    [blksize] among them that [setBlockSize] takes makes the receive
    buffer that many bytes and four; otherwise the buffer holds the
    datagram just read. *)
Theorem readLoop_takes_OACK
    (src : UDPAddr) (payload o : bytes) (os : options) (rest : list event)
    (r : receiver) (w : world) (c : UDPConn) :
  conn r = Some c -> isOpen w = true -> discards r src = false ->
  parsePacket (firstn (length (receive r)) payload) = inr (pOACK o) ->
  block r = 1 -> unpackOACK o = inr os ->
  exists buf,
    readLoop (Datagram src payload :: rest) r w
    = Ret (0, Some src, None)
        (set_opts (Some os) (set_block 0 (set_tid (Port src) (set_receive buf r))))
        (set_inbox rest w)
    /\ (forall v n, os !! "blksize" = Some v -> Atoi v = inr n -> 512 <= n <= 65464 ->
          buf = make (n + 4) /\ len buf = n + 4)
    /\ ((forall v, os !! "blksize" = Some v -> acceptable v = false) ->
        buf = copy (receive r) payload).
Proof.
  intros Hc Ho Hd Hp Hb Hu.
  exists (receive (map_fold applyOption
                     (set_tid (Port src) (set_receive (copy (receive r) payload) r)) os)).
  split; [|split].
  - cbn [readLoop]. rewrite Hc, Ho. cbn [negb].
    change (discards (set_receive (copy (receive r) payload) r) src)
      with (discards r src). rewrite Hd.
    cbn [receive set_receive]. rewrite take_read, Hp.
    cbn [block set_tid set_receive]. rewrite Hb. cbn [Z.eqb Pos.eqb negb].
    rewrite Hu. rewrite applyOptions_receive_only. done.
  - intros v n Hv Ha Hn. erewrite applyOptions_accepted by done. simpl.
    split; [done|]. unfold len, make. rewrite repeat_length. lia.
  - intros Hrej. by rewrite applyOptions_rejected.
Qed.

End Packets.

Lemma readLoop_skips_witness :
  readLoop [Datagram peer (wireDATA 0 [1; 2])] waitingReceiver (freshWorld [])
  = readLoop []
      (set_tid (Port peer)
         (set_receive (copy (receive waitingReceiver) (wireDATA 0 [1; 2])) waitingReceiver))
      (freshWorld []).
Proof.
  apply (readLoop_skips peer (wireDATA 0 [1; 2]) (pDATA (wireDATA 0 [1; 2])) []
           waitingReceiver (freshWorld []) theConn); by vm_compute.
Defined.

Lemma readLoop_takes_OACK_witness :
  exists buf,
    readLoop [Datagram peer (wireOACK [("blksize", "1024")])] waitingReceiver (freshWorld [])
    = Ret (0, Some peer, None)
        (set_opts (Some {[ "blksize" := "1024" ]})
           (set_block 0 (set_tid (Port peer) (set_receive buf waitingReceiver))))
        (set_inbox [] (freshWorld []))
    /\ (forall v n, ({[ "blksize" := "1024" ]} : options) !! "blksize" = Some v ->
          Atoi v = inr n -> 512 <= n <= 65464 ->
          buf = make (n + 4) /\ len buf = n + 4)
    /\ ((forall v, ({[ "blksize" := "1024" ]} : options) !! "blksize" = Some v ->
           acceptable v = false) ->
        buf = copy (receive waitingReceiver) (wireOACK [("blksize", "1024")])).
Proof.
  apply (readLoop_takes_OACK peer (wireOACK [("blksize", "1024")])
           (wireOACK [("blksize", "1024")]) {[ "blksize" := "1024" ]} []
           waitingReceiver (freshWorld []) theConn); by vm_compute.
Defined.

(** ** A negotiated block size *)

Section Negotiated.
Context {codec : Codec}.

Lemma acceptOptions_fold_sized (m : options) (r : receiver) (v : string) (n : Z) :
  m !! "blksize" = Some v -> Atoi v = inr n -> 512 <= n <= 65464 ->
  receive (map_fold acceptOption r m) = make (n + 4).
Proof.
  intros Hv Ha Hn.
  assert (Hacc : acceptable v = true) by (apply acceptable_spec; eauto).
  revert Hv. induction m as [|k v' m Hk Hfirst IH] using map_first_key_ind; intros Hv.
  - by rewrite lookup_empty in Hv.
  - rewrite map_fold_insert_first_key by done.
    destruct (decide (k = "blksize")) as [->|Hne].
    + rewrite lookup_insert_eq in Hv. simplify_eq.
      set (r1 := map_fold acceptOption r m).
      unfold acceptOption. rewrite decide_True by done.
      pose proof (setBlockSize_acceptable v r1) as Hs.
      rewrite Hacc in Hs. destruct Hs as (n' & Ha' & _ & ->). simpl. congruence.
    + rewrite lookup_insert_ne in Hv by done.
      rewrite acceptOption_receive by (by rewrite bool_decide_eq_false_2).
      by apply IH.
Qed.

Lemma accepted_singleton (m : options) (v : string) :
  m !! "blksize" = Some v -> acceptable v = true ->
  accepted m = {[ "blksize" := v ]}.
Proof.
  intros Hv Ha. apply map_eq. intros k. apply option_eq. intros x.
  unfold accepted. rewrite map_lookup_filter_Some. simpl.
  rewrite lookup_singleton_Some. split.
  - intros [Hk [-> _]]. split; [done|congruence].
  - intros [<- <-]. done.
Qed.

(** The options of a WRQ with a [blksize] that is taken: [sendOptions]
    leaves that one option and makes the receive buffer that many bytes
    and four.  When the peer answers the OACK with DATA block 1, the
    datagram is read whole up to that length, [sendOptions] returns
    without an error, the OACK is all that was sent, the next block is
    block 1 and [l] is the number of bytes read. *)
Theorem sendOptions_negotiates_blksize
    (gas : nat) (r : receiver) (w : world) (m : options) (v : string) (n : Z)
    (c : UDPConn) (buf d : bytes) (k : Z)
    (src : UDPAddr) (payload p : bytes) (rest : list event) :
  opts r = Some m -> m !! "blksize" = Some v -> Atoi v = inr n -> 512 <= n <= 65464 ->
  conn r = Some c -> isOpen w = true -> hd false (txfail w) = false ->
  packOACK (send r) {[ "blksize" := v ]} = (buf, k) -> slice buf 0 k = Some d ->
  inbox w = Datagram src payload :: rest -> discards r src = false ->
  parsePacket (firstn (Z.to_nat (n + 4)) payload) = inr (pDATA p) -> DATA_block p = 1 ->
  exists r' w',
    sendOptions (S gas) r w = Ret None r' w'
    /\ opts r' = Some {[ "blksize" := v ]}
    /\ len (receive r') = n + 4
    /\ l r' = Z.min (len payload) (n + 4)
    /\ block r' = 1 /\ tid r' = Port src
    /\ outbox w' = outbox w ++ [(d, addr r)] /\ inbox w' = rest.
Proof.
  intros Hr Hv Ha Hn Hc Ho Ht Hpack Hd Hin Hdis Hp Hblk.
  assert (Hacc : acceptable v = true) by (apply acceptable_spec; eauto).
  destruct (acceptOptions_accepted r m Hr) as (rbuf & Heq).
  assert (Hrbuf : rbuf = make (n + 4)).
  { assert (H : receive (acceptOptions r) = make (n + 4)).
    { unfold acceptOptions. rewrite Hr. by eapply acceptOptions_fold_sized. }
    by rewrite Heq in H. }
  subst rbuf. rewrite (accepted_singleton m v Hv Hacc) in Heq.
  assert (Hlen : length (make (n + 4)) = Z.to_nat (n + 4)).
  { unfold make. by rewrite repeat_length. }
  unfold sendOptions. munfold. rewrite Heq. unfold lenOpts.
  cbn [opts set_opts]. rewrite map_size_singleton.
  change (0 <? Z.of_nat 1) with true.
  cbn [send set_opts set_receive default from_option]. unfold id.
  rewrite Hpack. cbv beta iota.
  unfold receiveWithRetry. munfold. cbn [receiveWithRetry_loop]. munfold.
  erewrite (receiveDatagram_DATA k d src payload p rest);
    [| exact Hc | exact Ho | exact Ht | exact Hd | exact Hin | exact Hdis
     | simpl; by rewrite Hlen | by rewrite Hblk ].
  cbv beta iota. unfold isNet. cbn [andb]. unfold ret. cbv beta iota.
  eexists _, _. split; [reflexivity|].
  cbn [opts receive l block tid outbox inbox addr set_l set_tid set_receive
       set_retry set_block set_send set_opts].
  rewrite !len_copy. unfold len. rewrite Hlen.
  repeat split; try done; lia.
Qed.

End Negotiated.

Lemma sendOptions_negotiates_blksize_witness :
  exists r' w',
    sendOptions 1 (newReceiver (Some someOptions)) (freshWorld [Datagram peer bigBlock])
    = Ret None r' w'
    /\ opts r' = Some {[ "blksize" := "1024" ]}
    /\ len (receive r') = 1024 + 4
    /\ l r' = Z.min (len bigBlock) (1024 + 4)
    /\ block r' = 1 /\ tid r' = Port peer
    /\ outbox w' = [] ++ [(wireOACK [("blksize", "1024")], peer)] /\ inbox w' = [].
Proof.
  apply (sendOptions_negotiates_blksize 0 (newReceiver (Some someOptions))
           (freshWorld [Datagram peer bigBlock]) someOptions "1024" 1024 theConn
           (copy (make datagramLength) (wireOACK [("blksize", "1024")]))
           (wireOACK [("blksize", "1024")]) 15 peer bigBlock bigBlock []);
    try reflexivity; by vm_compute.
Defined.

(** The block of the witness is read whole: 604 bytes. *)
Example bigBlock_length : Z.min (len bigBlock) (1024 + 4) = 604.
Proof. by vm_compute. Qed.

(** ** One round trip of [WriteTo] *)

Section RoundTrip.
Context {codec : Codec}.

(** One round trip of the loop of [WriteTo] that the peer answers with
    the next block: the ACK of the current block goes out, once; the
    block counter is one more, and 0 after 65535; the transfer identifier
    is the source port of the block; [l] is the number of bytes read,
    which is the length of the datagram unless the receive buffer is
    shorter. *)
Theorem round_trip_next_block
    (gas : nat) (n : Z) (r : receiver) (w : world) (c : UDPConn)
    (src : UDPAddr) (payload p : bytes) (rest : list event) :
  conn r = Some c -> isOpen w = true -> hd false (txfail w) = false ->
  firstn 2 (send r) = [0; opACK] -> 4 <= len (send r) ->
  0 <= block r < 65536 ->
  inbox w = Datagram src payload :: rest -> discards r src = false ->
  parsePacket (firstn (length (receive r)) payload) = inr (pDATA p) ->
  DATA_block p = (if block r =? 65535 then 0 else block r + 1) ->
  exists r' w',
    ackAndWait (S gas) n r w = Ret None r' w'
    /\ block r' = (if block r =? 65535 then 0 else block r + 1)
    /\ l r' = Z.min (len payload) (len (receive r))
    /\ tid r' = Port src /\ attempt (retry r') = 0
    /\ outbox w' = outbox w ++ [(wireACK (block r), addr r)]
    /\ inbox w' = rest /\ closes w' = closes w.
Proof.
  intros Hc Ho Ht Hhdr Hlen Hb Hin Hdis Hp Hblk.
  destruct (ack_at_block (send r) (block r) Hhdr Hlen) as (buf & Hput & Hd).
  assert (Hnext : (block r + 1) mod 65536 = if block r =? 65535 then 0 else block r + 1).
  { destruct (Z.eqb_spec (block r) 65535) as [->|Hne]; [done|].
    apply Z.mod_small. lia. }
  erewrite (ackAndWait_DATA gas n buf (wireACK (block r)) src payload p rest);
    [| exact Hc | exact Ho | exact Ht | exact Hput | exact Hd | exact Hin
     | exact Hdis | exact Hp | by rewrite Hnext ].
  eexists _, _. split; [reflexivity|]. simpl. rewrite Hnext. done.
Qed.

End RoundTrip.

Lemma round_trip_next_block_witness :
  exists r' w',
    ackAndWait 1 1024 lastBlockReceiver (freshWorld [Datagram peer (wireDATA 0 [1; 2; 3])])
    = Ret None r' w'
    /\ block r' = (if block lastBlockReceiver =? 65535 then 0 else block lastBlockReceiver + 1)
    /\ l r' = Z.min (len (wireDATA 0 [1; 2; 3])) (len (receive lastBlockReceiver))
    /\ tid r' = Port peer /\ attempt (retry r') = 0
    /\ outbox w' = [] ++ [(wireACK 65535, peer)]
    /\ inbox w' = [] /\ closes w' = 0%nat.
Proof.
  apply (round_trip_next_block 0 1024 lastBlockReceiver
           (freshWorld [Datagram peer (wireDATA 0 [1; 2; 3])]) theConn peer
           (wireDATA 0 [1; 2; 3]) (wireDATA 0 [1; 2; 3]) []);
    try reflexivity; by vm_compute.
Defined.

(** ** A write that fails *)

Section WriteFails.
Context {codec : Codec} {W : Type} (Write : W -> bytes -> Z * option error * W).

(** The writer of the handler fails on a block that has been received:
    [WriteTo] sends no acknowledgement for the block; it aborts with an
    ERROR packet of code 1 that carries the text of the writer's error,
    closes the socket and returns that error, with a byte count that
    includes what the failed write reports as written. *)
Theorem write_error_aborts
    (fuel gas : nat) (w0 w1 : W) (n k : Z) (e : error) (r : receiver) (w : world)
    (c : UDPConn) (payload ebuf ed : bytes) (m : Z) :
  0 < l r -> slice (receive r) 4 (l r) = Some payload ->
  Write w0 payload = (k, Some e, w1) ->
  conn r = Some c -> isOpen w = true -> txfail w = [] ->
  packERROR (send r) 1 (Error e) = (ebuf, m) -> slice ebuf 0 m = Some ed ->
  WriteTo_loop Write (S fuel) gas w0 n r w
  = Ret (wrap64 (n + k), Some e) (set_conn None (set_send ebuf r))
      {| inbox := inbox w; outbox := outbox w ++ [(ed, addr r)];
         closes := S (closes w); txfail := [] |}.
Proof.
  intros Hl Hs Hw Hc Ho Ht Hp He.
  cbn [WriteTo_loop]. unfold deliver. munfold.
  destruct (Z.ltb_spec 0 (l r)) as [_|?]; [|lia].
  rewrite Hs. unfold ret. cbv beta iota. rewrite Hw.
  erewrite abort_open; [reflexivity|exact Hc|exact Ho|exact Ht|exact Hp|exact He].
Qed.

End WriteFails.

Lemma write_error_aborts_witness :
  WriteTo_loop brokenPipe 1 3 () 0 finishedReceiver (freshWorld [])
  = Ret (wrap64 (0 + 0), Some (Errorf "broken pipe"))
      (set_conn None
         (set_send (copy (send finishedReceiver) (wireERROR 1 "broken pipe"))
            finishedReceiver))
      {| inbox := []; outbox := [] ++ [(wireERROR 1 "broken pipe", peer)];
         closes := 1; txfail := [] |}.
Proof.
  apply (write_error_aborts brokenPipe 0 3 () () 0 0 (Errorf "broken pipe")
           finishedReceiver (freshWorld []) theConn [0; 0; 0]
           (copy (send finishedReceiver) (wireERROR 1 "broken pipe"))
           (wireERROR 1 "broken pipe") 16);
    try reflexivity; by vm_compute.
Defined.

(** ** The socket of a session *)

#[global] Instance Rsock_preorder : PreOrder Rsock.
Proof.
  split.
  - intros x. by left.
  - intros x y z [[H1 H2]|(H1 & H2 & H3)] [[H4 H5]|(H4 & H5 & H6)].
    + left. split; congruence.
    + right. repeat split; congruence.
    + right. repeat split; congruence.
    + congruence.
Qed.

#[global] Instance Rplain_preorder : PreOrder Rplain.
Proof.
  split.
  - intros x Hx. split; [done|reflexivity].
  - intros x y z H1 H2 Hx. destruct (H1 Hx) as [Hy Hxy].
    destruct (H2 Hy) as [Hz Hyz]. split; [done|]. by etrans.
Qed.

Ltac solve_plain :=
  simplify_eq; unfold Rplain, Rsock; simpl; intros; (split; [done|]); left; done.

Ltac plain_step :=
  first
    [ solve [eauto with plain]
    | apply keeps_ret; typeclasses eauto
    | apply keeps_get; typeclasses eauto
    | apply keeps_orPanic; typeclasses eauto
    | apply keeps_modify; [intros ? ?; solve_plain]
    | apply keeps_bind; [typeclasses eauto| |intros ?]
    | case_match ].

Create HintDb plain.

Section Socket.
Context {codec : Codec}.

Lemma SetReadDeadline_plain : keeps Rplain SetReadDeadline.
Proof. intros r w. unfold SetReadDeadline. repeat case_match; solve_plain. Qed.

Lemma WriteToUDP_plain b to : keeps Rplain (WriteToUDP b to).
Proof. intros r w. unfold WriteToUDP. repeat case_match; solve_plain. Qed.

Lemma abort_plain e : keeps Rplain (abort e).
Proof.
  intros r w. unfold abort. munfold. destruct (conn r) eqn:Hc; [|solve_plain].
  destruct (packERROR (send r) 1 (Error e)) as [buf n]. cbv beta iota.
  destruct (slice buf 0 n) as [d|]; [|done].
  unfold ret, WriteToUDP. cbn [conn set_send]. rewrite Hc.
  destruct (isOpen w); [destruct (txfail w) as [|[] t]|]; simpl;
    intros Ha; (split; [done|]); right; simpl; rewrite Hc; done.
Qed.

Hint Resolve SetReadDeadline_plain WriteToUDP_plain abort_plain : plain.

Lemma readLoop_plain (inb : list event) :
  forall r w,
    post (readLoop inb r w) (fun _ r' w' => Rplain (r, w) (r', w')).
Proof.
  induction inb as [|ev rest IH]; intros r w; cbn [readLoop].
  - repeat case_match; solve_plain.
  - destruct (conn r) eqn:Hc; [|solve_plain].
    destruct (isOpen w) eqn:Ho; cbn [negb]; [|solve_plain].
    destruct ev as [src payload|t]; [|solve_plain].
    set (r1 := set_receive (copy (receive r) payload) r).
    assert (Hgo : forall r0, Rplain (r, w) (r0, w) ->
              post (readLoop rest r0 w) (fun _ r' w' => Rplain (r, w) (r', w'))).
    { intros r0 H0. eapply post_weaken; [apply IH|]. intros ? r' w' H3. simpl in *.
      by etrans. }
    assert (H1 : Rplain (r, w) (r1, w)) by solve_plain.
    destruct (discards r1 src); [by apply Hgo|].
    destruct (parsePacket _) as [err|p]; [solve_plain|].
    set (r2 := set_tid (Port src) r1).
    assert (H2 : Rplain (r, w) (r2, w)) by solve_plain.
    destruct p; try (by apply Hgo).
    + destruct (DATA_block p =? block r2); [solve_plain|by apply Hgo].
    + destruct (block r2 =? 1); cbn [negb]; [|by apply Hgo].
      destruct (unpackOACK p) as [err|os].
      * apply post_bind. eapply post_weaken; [apply abort_plain|].
        intros a r' w' H3. simpl in *.
        assert (H4 : Rplain (r, w) (r2, set_inbox rest w)) by solve_plain.
        by etrans.
      * simpl. rewrite applyOptions_receive_only. solve_plain.
    + solve_plain.
Qed.

Lemma readLoop_inbox_plain : keeps Rplain (fun r w => readLoop (inbox w) r w).
Proof. intros r w. apply readLoop_plain. Qed.

Hint Resolve readLoop_inbox_plain : plain.

Lemma receiveDatagram_plain n : keeps Rplain (receiveDatagram n).
Proof. unfold receiveDatagram. repeat plain_step. Qed.

Hint Resolve receiveDatagram_plain : plain.

Lemma receiveWithRetry_loop_plain gas n : keeps Rplain (receiveWithRetry_loop gas n).
Proof.
  induction gas as [|g IH]; cbn [receiveWithRetry_loop].
  - intros r w. done.
  - repeat plain_step.
Qed.

Hint Resolve receiveWithRetry_loop_plain : plain.

Lemma receiveWithRetry_plain gas n : keeps Rplain (receiveWithRetry gas n).
Proof. unfold receiveWithRetry. repeat plain_step. Qed.

Hint Resolve receiveWithRetry_plain : plain.

Lemma sendOptions_plain gas : keeps Rplain (sendOptions gas).
Proof.
  unfold sendOptions.
  apply keeps_bind; [typeclasses eauto| |intros ?].
  { apply keeps_modify. intros r w.
    destruct (opts r) as [m|] eqn:Hr.
    - destruct (acceptOptions_accepted r m Hr) as (buf & ->). solve_plain.
    - unfold acceptOptions. rewrite Hr. reflexivity. }
  repeat plain_step.
Qed.

Hint Resolve sendOptions_plain : plain.

End Socket.

Section SocketWriteTo.
Context {codec : Codec}.
Hint Resolve SetReadDeadline_plain WriteToUDP_plain abort_plain readLoop_inbox_plain
  receiveDatagram_plain receiveWithRetry_loop_plain receiveWithRetry_plain
  sendOptions_plain : plain.

Lemma ackAndWait_plain gas n : keeps Rplain (ackAndWait gas n).
Proof. unfold ackAndWait. repeat plain_step. Qed.

Lemma deliver_plain {W : Type} (Write : W -> bytes -> Z * option error * W) w0 n :
  keeps Rplain (deliver Write w0 n).
Proof.
  intros r w. unfold deliver. munfold.
  destruct (0 <? l r); [|solve_plain].
  destruct (slice (receive r) 4 (l r)) as [payload|]; [|done].
  unfold ret. cbv beta iota.
  destruct (Write w0 payload) as [[k [e|]] w1].
  - apply post_bind. eapply post_weaken; [apply abort_plain|].
    intros a r' w' H. exact H.
  - destruct (l r <? len (receive r)); [|solve_plain].
    destruct (autoTerm r) eqn:Ha.
    + assert (Hv : forall o : outcome (W * Z + Z * option error),
                post o (fun _ r' w' => Rplain (r, w) (r', w'))).
      { intros o. destruct o; simpl; [|done..]. intros Hf. simpl in Hf. congruence. }
      apply Hv.
    + solve_plain.
Qed.

Hint Resolve ackAndWait_plain deliver_plain : plain.

Lemma WriteTo_loop_plain {W : Type} (Write : W -> bytes -> Z * option error * W)
    fuel gas :
  forall w0 n, keeps Rplain (WriteTo_loop Write fuel gas w0 n).
Proof.
  induction fuel as [|f IH]; intros w0 n; cbn [WriteTo_loop].
  - intros r w. done.
  - repeat plain_step.
Qed.

Hint Resolve WriteTo_loop_plain : plain.

Lemma WriteTo_plain {W : Type} (Write : W -> bytes -> Z * option error * W)
    fuel gas w0 :
  keeps Rplain (WriteTo Write fuel gas w0).
Proof. unfold WriteTo. repeat plain_step. Qed.

Lemma runHandler_plain fuel gas (h : handlerScript) : keeps Rplain (runHandler fuel gas h).
Proof.
  induction h as [err|W Write w0 k IH]; cbn [runHandler].
  - apply keeps_ret. typeclasses eauto.
  - apply keeps_bind; [typeclasses eauto|apply WriteTo_plain|]. intros res. apply IH.
Qed.

Lemma runHandler_keeps fuel gas (h : handlerScript) : keeps Rconfig (runHandler fuel gas h).
Proof.
  induction h as [err|W Write w0 k IH]; cbn [runHandler].
  - apply keeps_ret. typeclasses eauto.
  - apply keeps_bind; [typeclasses eauto|apply WriteTo_keeps|]. intros res. apply IH.
Qed.

(** The handler returns when each [WriteTo] it calls may go round more
    often than there are reads to come. *)
Lemma runHandler_fuel fuel gas (h : handlerScript) :
  forall r w,
    (length (inbox w) < fuel)%nat -> (Z.to_nat (retries r) < gas)%nat ->
    runHandler fuel gas h r w <> OutOfFuel.
Proof.
  induction h as [err|W Write w0 k IH]; intros r w Hf Hg; cbn [runHandler]; [done|].
  munfold.
  pose proof (WriteTo_fuel Write gas fuel w0 r w Hf Hg) as Hrun.
  pose proof (WriteTo_keeps Write fuel gas w0 r w) as Hk.
  destruct (WriteTo Write fuel gas w0 r w) as [res r1 w1| |]; [|done..].
  simpl in Hk. destruct Hk as [(_&_&_&Hre&_) (_&_&Hlen)]. simpl in *.
  apply IH; [lia|]. by rewrite Hre.
Qed.

End SocketWriteTo.

Section AbortCloses.
Context {codec : Codec}.

Lemma abort_closes_and_forgets_aux (e : error) (r : receiver) (w : world) :
  post (abort e r w)
    (fun res r' w' =>
       conn r' = None
       /\ match conn r with
          | None => r' = r /\ w' = w /\ res = None
          | Some _ => closes w' = S (closes w)
          end).
Proof.
  unfold abort. munfold. destruct (conn r) eqn:Hc.
  - destruct (packERROR (send r) 1 (Error e)) as [buf n].
    cbv beta iota. destruct (slice buf 0 n) as [d|]; [|done].
    unfold ret, WriteToUDP. cbn [conn set_send]. rewrite Hc.
    destruct (isOpen w); [destruct (txfail w) as [|[] t]|]; simpl; done.
  - simpl. by rewrite Hc.
Qed.

End AbortCloses.

Section SocketSession.
Context {codec : Codec}.

Lemma terminate_plain_closes (r : receiver) (w : world) :
  conn r <> None -> dally r = false ->
  lands (terminate r w) (fun _ _ w' => closes w' = S (closes w)).
Proof.
  intros Hc Hd. unfold terminate. munfold.
  destruct (conn r) eqn:Hcr; [|done].
  destruct (PutUint16 (send r) 2 (block r)) as [buf|]; [|done].
  unfold ret. cbv beta iota. rewrite Hd.
  destruct (slice buf 0 4) as [d|]; [|done].
  unfold WriteToUDP. cbn [conn set_send]. rewrite Hcr.
  destruct (isOpen w); [destruct (txfail w) as [|[] t]|]; done.
Qed.

(** A session as the listener starts it, with neither [autoTerm] nor
    [dally] set, holding a connection to a socket that is open.  Whatever
    the handler does (it may call [WriteTo] any number of times, or not
    at all, and return an error or none), whatever the network does, and
    also without a handler: when the session task is done, [Close] has
    been called on the socket exactly once. *)
Theorem listener_session_closes_once
    (fuel gas : nat) (writeHandler : option (string -> handlerScript))
    (filename : string) (r : receiver) (w : world) :
  autoTerm r = false -> dally r = false ->
  conn r <> None -> closes w = 0%nat ->
  (length (inbox w) < fuel)%nat -> (Z.to_nat (retries r) < gas)%nat ->
  lands (session fuel gas writeHandler filename r w)
        (fun _ _ w' => closes w' = 1%nat).
Proof.
  intros Ha Hd Hc Hcl Hf Hg.
  assert (Hend : forall e r1 w1,
    Rsock (r, w) (r1, w1) ->
    lands (abort e r1 w1) (fun _ _ w' => closes w' = 1%nat)).
  { intros e r1 w1 Hs.
    pose proof (abort_plain e r1 w1) as Hp.
    pose proof (abort_fuel e r1 w1) as Hfu.
    pose proof (abort_closes_and_forgets_aux e r1 w1) as Hn.
    destruct (abort e r1 w1) as [res r2 w2| |]; [|done..].
    simpl in *. destruct Hn as [Hn2 Hn].
    destruct Hs as [[Hs1 Hs2]|(_ & Hs1 & Hs2)]; simpl in *.
    - destruct (conn r1) eqn:Hc1; [|congruence]. lia.
    - rewrite Hs1 in Hn. destruct Hn as (_ & -> & _). lia. }
  unfold session. destruct writeHandler as [h|].
  - munfold.
    pose proof (runHandler_plain fuel gas (h filename) r w) as Hp.
    pose proof (runHandler_keeps fuel gas (h filename) r w) as Hk.
    pose proof (runHandler_fuel fuel gas (h filename) r w Hf Hg) as Hfu.
    destruct (runHandler fuel gas (h filename) r w) as [err r1 w1| |]; [|done..].
    simpl in Hp, Hk. destruct (Hp Ha) as [Ha1 Hs].
    destruct Hk as [(_&_&_&_&Hd1&_) _]. simpl in Hd1.
    destruct err as [e|].
    + specialize (Hend e r1 w1 Hs). by destruct (abort e r1 w1).
    + destruct Hs as [[Hs1 Hs2]|(_ & Hs1 & Hs2)]; simpl in *.
      * pose proof (terminate_plain_closes r1 w1) as Ht.
        destruct (terminate r1 w1) as [res r2 w2| |]; try done.
        -- simpl in *. rewrite Ht; [lia|congruence|congruence].
        -- simpl in Ht. apply Ht; congruence.
      * rewrite terminate_nil by done. simpl. lia.
  - munfold.
    specialize (Hend (Errorf "server does not support write requests") r w).
    destruct (abort _ r w); [|done|]; by apply Hend.
Qed.

End SocketSession.

Lemma listener_session_closes_once_witness :
  lands (session 2 3 (Some copyHandler) "bar" (newReceiver None)
           (freshWorld [Datagram peer (wireDATA 1 [7; 8; 9])]))
        (fun _ _ w' => closes w' = 1%nat).
Proof.
  apply (listener_session_closes_once 2 3 (Some copyHandler) "bar" (newReceiver None)
           (freshWorld [Datagram peer (wireDATA 1 [7; 8; 9])]));
    try reflexivity; by vm_compute.
Defined.

(** ** [WriteTo] returns *)

Section Returns.
Context {codec : Codec} {W : Type} (Write : W -> bytes -> Z * option error * W).

(** [WriteTo] comes to an end whatever the network does and whatever the
    writer does: its loop goes round at most once more than datagrams are
    read, each retry loop at most once more than there are retries.  It
    returns, or it panics on a slice out of range; what it leaves of the
    reads is no more than it found, and the configuration of the receiver
    (peer address, timeout, retries, [dally], [autoTerm], mode) is as it
    was. *)
Theorem WriteTo_returns
    (fuel gas : nat) (w0 : W) (r : receiver) (w : world) :
  (length (inbox w) < fuel)%nat -> (Z.to_nat (retries r) < gas)%nat ->
  WriteTo Write fuel gas w0 r w = Panic
  \/ exists res r' w',
       WriteTo Write fuel gas w0 r w = Ret res r' w'
       /\ (length (inbox w') <= length (inbox w))%nat
       /\ sameConfig r r'.
Proof.
  intros Hf Hg.
  pose proof (WriteTo_fuel Write gas fuel w0 r w Hf Hg) as Hrun.
  pose proof (WriteTo_keeps Write fuel gas w0 r w) as Hk.
  destruct (WriteTo Write fuel gas w0 r w) as [res r' w'| |]; [|by left|done].
  right. exists res, r', w'. simpl in Hk. destruct Hk as [Hcfg (_ & _ & Hlen)].
  done.
Qed.

End Returns.

Lemma WriteTo_returns_witness :
  WriteTo sink 3 3 [] (newReceiver (Some someOptions))
    (freshWorld [Datagram stranger [0; 5]; Datagram peer bigBlock]) = Panic
  \/ exists res r' w',
       WriteTo sink 3 3 [] (newReceiver (Some someOptions))
         (freshWorld [Datagram stranger [0; 5]; Datagram peer bigBlock])
       = Ret res r' w'
       /\ (length (inbox w') <= 2)%nat
       /\ sameConfig (newReceiver (Some someOptions)) r'.
Proof.
  apply (WriteTo_returns sink 3 3 [] (newReceiver (Some someOptions))
           (freshWorld [Datagram stranger [0; 5]; Datagram peer bigBlock]));
    by vm_compute.
Defined.

(** ** Where the datagrams go *)

#[global] Instance Rdest_preorder : PreOrder Rdest.
Proof.
  split.
  - intros x. split; [done|]. exists []. by rewrite app_nil_r.
  - intros x y z [Ha1 (m1 & H1 & F1)] [Ha2 (m2 & H2 & F2)].
    split; [congruence|]. exists (m1 ++ m2). split.
    + by rewrite H2, H1, app_assoc.
    + apply Forall_app. split; [done|]. by rewrite <- Ha1.
Qed.

Ltac solve_dest :=
  simplify_eq; unfold Rdest; simpl; (split; [done|]);
  first [ by exists []; rewrite app_nil_r
        | eexists [_]; split; [reflexivity|]; by repeat constructor ].

Ltac dest_step :=
  first
    [ solve [eauto with dest]
    | apply keeps_ret; typeclasses eauto
    | apply keeps_get; typeclasses eauto
    | apply keeps_orPanic; typeclasses eauto
    | apply keeps_modify; [intros ? ?; solve_dest]
    | apply keeps_bind; [typeclasses eauto| |intros ?]
    | case_match ].

Create HintDb dest.

Section Destination.
Context {codec : Codec}.

Lemma WriteToUDP_dest b (r : receiver) (w : world) :
  post (WriteToUDP b (addr r) r w) (fun _ r' w' => Rdest (r, w) (r', w')).
Proof. unfold WriteToUDP. repeat case_match; solve_dest. Qed.

Lemma SetReadDeadline_dest : keeps Rdest SetReadDeadline.
Proof. intros r w. unfold SetReadDeadline. repeat case_match; solve_dest. Qed.

Lemma abort_dest e : keeps Rdest (abort e).
Proof.
  intros r w. unfold abort. munfold. destruct (conn r) eqn:Hc; [|solve_dest].
  destruct (packERROR (send r) 1 (Error e)) as [buf n]. cbv beta iota.
  destruct (slice buf 0 n) as [d|]; [|done].
  unfold ret, WriteToUDP. cbn [conn set_send]. rewrite Hc.
  destruct (isOpen w); [destruct (txfail w) as [|[] t]|]; solve_dest.
Qed.

Hint Resolve SetReadDeadline_dest abort_dest : dest.

Lemma readLoop_dest (inb : list event) :
  forall r w,
    post (readLoop inb r w) (fun _ r' w' => Rdest (r, w) (r', w')).
Proof.
  induction inb as [|ev rest IH]; intros r w; cbn [readLoop].
  - repeat case_match; solve_dest.
  - destruct (conn r) eqn:Hc; [|solve_dest].
    destruct (isOpen w) eqn:Ho; cbn [negb]; [|solve_dest].
    destruct ev as [src payload|t]; [|solve_dest].
    set (r1 := set_receive (copy (receive r) payload) r).
    assert (Hgo : forall r0, Rdest (r, w) (r0, w) ->
              post (readLoop rest r0 w) (fun _ r' w' => Rdest (r, w) (r', w'))).
    { intros r0 H0. eapply post_weaken; [apply IH|]. intros ? r' w' H3. simpl in *.
      by etrans. }
    assert (H1 : Rdest (r, w) (r1, w)) by solve_dest.
    destruct (discards r1 src); [by apply Hgo|].
    destruct (parsePacket _) as [err|p]; [solve_dest|].
    set (r2 := set_tid (Port src) r1).
    assert (H2 : Rdest (r, w) (r2, w)) by solve_dest.
    destruct p; try (by apply Hgo).
    + destruct (DATA_block p =? block r2); [solve_dest|by apply Hgo].
    + destruct (block r2 =? 1); cbn [negb]; [|by apply Hgo].
      destruct (unpackOACK p) as [err|os].
      * apply post_bind. eapply post_weaken; [apply abort_dest|].
        intros a r' w' H3. simpl in *.
        assert (H4 : Rdest (r, w) (r2, set_inbox rest w)) by solve_dest.
        by etrans.
      * simpl. rewrite applyOptions_receive_only. solve_dest.
    + solve_dest.
Qed.

Lemma receiveDatagram_dest n : keeps Rdest (receiveDatagram n).
Proof.
  intros r w. unfold receiveDatagram. munfold. unfold SetReadDeadline.
  destruct (conn r) eqn:Hc; [|solve_dest].
  destruct (isOpen w) eqn:Ho; [|solve_dest].
  destruct (slice (send r) 0 n) as [d|]; [|done]. unfold ret. cbv beta iota.
  pose proof (WriteToUDP_dest d r w) as Hw.
  destruct (WriteToUDP d (addr r) r w) as [[e|] r1 w1| |]; [| |done..].
  - exact Hw.
  - simpl in Hw. eapply post_weaken; [apply readLoop_dest|].
    intros a r' w' H. simpl in *. etrans; [exact Hw|].
    destruct w1. exact H.
Qed.

Hint Resolve receiveDatagram_dest : dest.

Lemma receiveWithRetry_loop_dest gas n : keeps Rdest (receiveWithRetry_loop gas n).
Proof.
  induction gas as [|g IH]; cbn [receiveWithRetry_loop].
  - intros r w. done.
  - repeat dest_step.
Qed.

Hint Resolve receiveWithRetry_loop_dest : dest.

Lemma receiveWithRetry_dest gas n : keeps Rdest (receiveWithRetry gas n).
Proof. unfold receiveWithRetry. repeat dest_step. Qed.

Hint Resolve receiveWithRetry_dest : dest.

Lemma sendOptions_dest gas : keeps Rdest (sendOptions gas).
Proof.
  unfold sendOptions.
  apply keeps_bind; [typeclasses eauto| |intros ?].
  { apply keeps_modify. intros r w.
    destruct (opts r) as [m|] eqn:Hr.
    - destruct (acceptOptions_accepted r m Hr) as (buf & ->). solve_dest.
    - unfold acceptOptions. rewrite Hr. reflexivity. }
  repeat dest_step.
Qed.

Lemma dallyLoop_dest i : keeps Rdest (dallyLoop i).
Proof. induction i; cbn [dallyLoop]; repeat dest_step. Qed.

Hint Resolve sendOptions_dest dallyLoop_dest : dest.

Lemma terminate_dest : keeps Rdest terminate.
Proof.
  intros r w. unfold terminate. munfold.
  destruct (conn r) eqn:Hc; [|solve_dest].
  destruct (PutUint16 (send r) 2 (block r)) as [buf|]; [|done].
  unfold ret. cbv beta iota.
  assert (H0 : Rdest (r, w) (set_send buf r, w)) by solve_dest.
  assert (Hcl : forall (a : option error) r1 w1, Rdest (r, w) (r1, w1) ->
            post (Close r1 w1) (fun _ r' w' => Rdest (r, w) (r', w'))).
  { intros a r1 w1 [Ha (more & Hm & Hf)]. simpl in *. split; [done|]. by exists more. }
  destruct (dally r).
  - pose proof (dallyLoop_dest 3 (set_send buf r) w) as Hd.
    destruct (dallyLoop 3 (set_send buf r) w) as [res r1 w1| |]; [|done..].
    simpl in Hd. apply (Hcl res). by etrans.
  - destruct (slice buf 0 4) as [d|]; [|done]. cbv beta iota.
    pose proof (WriteToUDP_dest d (set_send buf r) w) as Hw.
    change (addr (set_send buf r)) with (addr r) in Hw.
    destruct (WriteToUDP d (addr r) (set_send buf r) w) as [res r1 w1| |]; [|done..].
    simpl in Hw. apply (Hcl res). by etrans.
Qed.

Hint Resolve terminate_dest : dest.

Section WithWriter.
Context {W : Type} (Write : W -> bytes -> Z * option error * W).

Lemma deliver_dest w0 n : keeps Rdest (deliver Write w0 n).
Proof. unfold deliver. repeat dest_step. Qed.

Lemma ackAndWait_dest gas n : keeps Rdest (ackAndWait gas n).
Proof. unfold ackAndWait. repeat dest_step. Qed.

Hint Resolve deliver_dest ackAndWait_dest : dest.

Lemma WriteTo_loop_dest fuel gas : forall w0 n, keeps Rdest (WriteTo_loop Write fuel gas w0 n).
Proof.
  induction fuel as [|f IH]; intros w0 n; cbn [WriteTo_loop].
  - intros r w. done.
  - repeat dest_step.
Qed.

Hint Resolve WriteTo_loop_dest : dest.

Lemma WriteTo_dest fuel gas w0 : keeps Rdest (WriteTo Write fuel gas w0).
Proof. unfold WriteTo. repeat dest_step. Qed.

End WithWriter.

Lemma runHandler_dest fuel gas (h : handlerScript) : keeps Rdest (runHandler fuel gas h).
Proof.
  induction h as [err|W Write w0 k IH]; cbn [runHandler].
  - apply keeps_ret. typeclasses eauto.
  - apply keeps_bind; [typeclasses eauto|apply WriteTo_dest|]. intros res. apply IH.
Qed.

Lemma session_fuel
    (fuel gas : nat) (writeHandler : option (string -> handlerScript))
    (filename : string) (r : receiver) (w : world) :
  (length (inbox w) < fuel)%nat -> (Z.to_nat (retries r) < gas)%nat ->
  session fuel gas writeHandler filename r w <> OutOfFuel.
Proof.
  intros Hf Hg. unfold session. munfold. destruct writeHandler as [h|].
  - pose proof (runHandler_fuel fuel gas (h filename) r w Hf Hg) as Hfu.
    destruct (runHandler fuel gas (h filename) r w) as [[e|] r1 w1| |]; [| |done..].
    + pose proof (abort_fuel e r1 w1). by destruct (abort e r1 w1).
    + pose proof (terminate_runs r1 w1). by destruct (terminate r1 w1).
  - pose proof (abort_fuel (Errorf "server does not support write requests") r w).
    by destruct (abort _ r w).
Qed.

(** Every datagram a session sends, in [WriteTo], in [terminate] and in
    [abort], whatever the handler and the network do, goes to the address
    the receiver was made with, the source of the request; the address
    is never assigned.  A transfer identifier that is locked to another
    port of the peer does not change where the receiver sends. *)
Theorem session_sends_to_request_source
    (fuel gas : nat) (writeHandler : option (string -> handlerScript))
    (filename : string) (r : receiver) (w : world) :
  (length (inbox w) < fuel)%nat -> (Z.to_nat (retries r) < gas)%nat ->
  lands (session fuel gas writeHandler filename r w)
        (fun _ r' w' =>
           addr r' = addr r
           /\ exists more, outbox w' = outbox w ++ more
                           /\ Forall (fun d => d.2 = addr r) more).
Proof.
  intros Hf Hg.
  assert (H : keeps Rdest (session fuel gas writeHandler filename)).
  { pose proof runHandler_dest. unfold session. repeat dest_step. }
  apply lands_post; [apply H|by apply session_fuel].
Qed.

End Destination.

Lemma session_sends_to_request_source_witness :
  lands (session 3 3 (Some copyHandler) "bar" (newReceiver None)
           (freshWorld [Datagram (peerAt 2000) (wireDATA 1 [7; 8; 9])]))
        (fun _ r' w' =>
           addr r' = addr (newReceiver None)
           /\ exists more, outbox w' = outbox (freshWorld [Datagram (peerAt 2000) (wireDATA 1 [7; 8; 9])]) ++ more
                           /\ Forall (fun d => d.2 = addr (newReceiver None)) more).
Proof.
  apply (session_sends_to_request_source 3 3 (Some copyHandler) "bar" (newReceiver None)
           (freshWorld [Datagram (peerAt 2000) (wireDATA 1 [7; 8; 9])]));
    vm_compute; lia.
Defined.

(** The run of the witness: the block came from port 2000, the transfer
    identifier is 2000, and both ACKs went to port 1234. *)
Example session_other_port :
  exists r' w',
    session 3 3 (Some copyHandler) "bar" (newReceiver None)
      (freshWorld [Datagram (peerAt 2000) (wireDATA 1 [7; 8; 9])])
    = Ret () r' w'
    /\ tid r' = 2000
    /\ outbox w' = [(wireACK 0, peer); (wireACK 1, peer)].
Proof. eexists _, _. split; [vm_compute; reflexivity|]. done. Qed.

(** ** A whole transfer *)

Section Transfer.
Context {codec : Codec} {W : Type} (Write : W -> bytes -> Z * option error * W).

Lemma header_put (s : bytes) :
  4 <= len s ->
  exists b0, PutUint16 s 0 opACK = Some b0
             /\ firstn 2 b0 = [0; opACK] /\ len b0 = len s.
Proof.
  intros Hl. unfold len in Hl.
  destruct s as [|a0 [|a1 [|a2 [|a3 s]]]]; simpl in Hl; try lia.
  exists (0 :: 4 :: a2 :: a3 :: s). split; [|done].
  unfold PutUint16. rewrite slice_Some; [done|lia|]. unfold len. simpl. lia.
Qed.

Lemma ack_put (s : bytes) (blk : Z) :
  firstn 2 s = [0; opACK] -> 4 <= len s ->
  exists buf, PutUint16 s 2 blk = Some buf /\ slice buf 0 4 = Some (wireACK blk)
              /\ firstn 2 buf = [0; opACK] /\ len buf = len s.
Proof.
  intros H2 Hl. unfold len in Hl.
  destruct s as [|a0 [|a1 [|a2 [|a3 s]]]]; simpl in Hl; try lia.
  simpl in H2. simplify_eq.
  exists (wireACK blk ++ s). split; [|split; [|done]].
  - unfold PutUint16. rewrite slice_Some; [done|lia|]. unfold len. simpl. lia.
  - rewrite slice_Some; [done|lia|]. unfold len, wireACK. simpl. lia.
Qed.

Lemma deliver_full (w0 w1 : W) (n k : Z) (r : receiver) (w : world) (payload : bytes) :
  0 < l r -> slice (receive r) 4 (l r) = Some payload ->
  Write w0 payload = (k, None, w1) -> len (receive r) <= l r ->
  deliver Write w0 n r w = Ret (inl (w1, wrap64 (n + k))) r w.
Proof.
  intros Hl Hs Hw Hle. unfold deliver. munfold.
  destruct (Z.ltb_spec 0 (l r)) as [_|?]; [|lia].
  rewrite Hs. simpl. rewrite Hw.
  by destruct (Z.ltb_spec (l r) (len (receive r))) as [?|_]; [lia|].
Qed.

Lemma mod_next (b i : Z) : ((b + 1) mod 65536 + i) mod 65536 = (b + 1 + i) mod 65536.
Proof. by rewrite Zplus_mod_idemp_l. Qed.

Lemma numbered_tail (n : nat) (b : Z) (p : bytes) (ps : list bytes) :
  numbered n (b + 1) (p :: ps) -> numbered n ((b + 1) mod 65536 + 1) ps.
Proof.
  intros H i q Hq. specialize (H (S i) q Hq).
  replace (((b + 1) mod 65536 + 1 + Z.of_nat i) mod 65536)
    with ((b + 1 + Z.of_nat (S i)) mod 65536); [done|].
  replace ((b + 1) mod 65536 + 1 + Z.of_nat i)
    with ((b + 1) mod 65536 + (1 + Z.of_nat i)) by lia.
  rewrite mod_next. f_equal. lia.
Qed.

Lemma acks_shift (b : Z) (n : nat) (a : UDPAddr) :
  0 <= b < 65536 ->
  (wireACK b, a)
    :: map (fun i => (wireACK (((b + 1) mod 65536 + Z.of_nat i) mod 65536), a)) (seq 0 n)
  = map (fun i => (wireACK ((b + Z.of_nat i) mod 65536), a)) (seq 0 (S n)).
Proof.
  intros Hb. cbn [seq map]. f_equal.
  - change (Z.of_nat 0) with 0. by rewrite Z.add_0_r, Z.mod_small.
  - rewrite <- seq_shift, map_map. apply map_ext. intros i.
    rewrite mod_next. do 3 f_equal. lia.
Qed.

(** The acknowledgement of the block just written and what follows it
    in the loop of [WriteTo], when the peer sends the full blocks
    [fulls] and then the short block [last]. *)
Lemma rounds_blocks (src : UDPAddr) (c : UDPConn) (last : bytes) (rest : list event)
    (gas : nat) :
  forall (fulls : list bytes) (f : nat) (w0 : W) (n : Z) (r : receiver) (w : world),
    conn r = Some c -> isOpen w = true -> Forall (fun b => b = false) (txfail w) ->
    firstn 2 (send r) = [0; opACK] -> 4 <= len (send r) ->
    0 <= block r < 65536 -> autoTerm r = false ->
    discards r src = false ->
    inbox w = map (Datagram src) (fulls ++ [last]) ++ rest ->
    numbered (length (receive r)) (block r + 1) (fulls ++ [last]) ->
    Forall (fun p => len p = len (receive r)) fulls ->
    4 <= len last < len (receive r) ->
    (writes Write w0 n (map (skipn 4) (fulls ++ [last]))).2 = None ->
    (length fulls < f)%nat ->
    exists r' w',
      (a ← ackAndWait (S gas) n;
       match a with
       | Some res => mret res
       | None => WriteTo_loop Write f (S gas) w0 n
       end) r w
      = Ret ((writes Write w0 n (map (skipn 4) (fulls ++ [last]))).1, None) r' w'
      /\ outbox w'
         = outbox w ++ map (fun i => (wireACK ((block r + Z.of_nat i) mod 65536), addr r))
                         (seq 0 (S (length fulls)))
      /\ inbox w' = rest /\ closes w' = closes w /\ conn r' = conn r
      /\ block r' = (block r + Z.of_nat (S (length fulls))) mod 65536
      /\ l r' = len last /\ tid r' = Port src.
Proof.
  induction fulls as [|p0 fulls IH];
    intros f w0 n r w Hc Ho Ht Hhdr Hlen Hb Ha Hdis Hin Hnum Hfull Hlast Hw Hf.
  - destruct (ack_put (send r) (block r) Hhdr Hlen) as (buf & Hput & Hd & _ & _).
    destruct (Hnum 0%nat last eq_refl) as (p & Hp & Hblk).
    rewrite Z.add_0_r in Hblk.
    assert (Htx : hd false (txfail w) = false) by (by destruct Ht).
    erewrite bind_Ret;
      [|by eapply (ackAndWait_DATA gas n buf (wireACK (block r)) src last p rest)].
    destruct f as [|f]; [simpl in Hf; lia|]. cbn [WriteTo_loop].
    simpl in Hw |- *.
    destruct (Write w0 (skipn 4 last)) as [[k err] w1] eqn:HW.
    destruct err as [e|]; [done|].
    erewrite bind_Ret;
      [|eapply (deliver_last Write w0 w1 n k _ _ (skipn 4 last)); simpl;
        [rewrite Z.min_l by lia; lia
        |apply slice_copy_payload; lia
        |exact HW
        |rewrite len_copy, Z.min_l by lia; lia
        |exact Ha]].
    eexists _, _. split; [reflexivity|]. simpl.
    rewrite Z.min_l by lia. change (Z.of_nat 0) with 0. rewrite Z.add_0_r.
    by rewrite (Z.mod_small (block r)) by lia.
  - destruct (ack_put (send r) (block r) Hhdr Hlen) as (buf & Hput & Hd & Hhdr1 & Hlen1).
    destruct (Hnum 0%nat p0 eq_refl) as (p & Hp & Hblk).
    rewrite Z.add_0_r in Hblk.
    assert (Htx : hd false (txfail w) = false) by (by destruct Ht).
    apply Forall_cons in Hfull as [Hp0 Hfull].
    erewrite bind_Ret;
      [|by eapply (ackAndWait_DATA gas n buf (wireACK (block r)) src p0 p
                     (map (Datagram src) (fulls ++ [last]) ++ rest))].
    destruct f as [|f]; [simpl in Hf; lia|]. cbn [WriteTo_loop].
    simpl in Hw.
    destruct (Write w0 (skipn 4 p0)) as [[k err] w1] eqn:HW.
    destruct err as [e|]; [done|].
    erewrite bind_Ret;
      [|eapply (deliver_full w0 w1 n k _ _ (skipn 4 p0)); simpl;
        [rewrite Z.min_l by lia; lia
        |apply slice_copy_payload; lia
        |exact HW
        |rewrite len_copy, Z.min_l by lia; lia]].
    cbv beta iota.
    match goal with
    | |- context [WriteTo_loop Write f (S gas) w1 ?n1] => set (n' := n1)
    end.
    match goal with
    | |- exists r' w', _ ?r1 ?w1' = _ /\ _ =>
        destruct (IH f w1 n' r1 w1') as (r' & w' & Hrun & Hout & Hinb & Hcl & Hcn & Hbl & Hl & Htid)
    end; simpl.
    + exact Hc.
    + exact Ho.
    + destruct Ht; [constructor|done].
    + exact Hhdr1.
    + lia.
    + apply Z.mod_pos_bound. lia.
    + exact Ha.
    + unfold discards in *. simpl. rewrite Z.eqb_refl.
      apply orb_false_iff in Hdis as [-> _]. by rewrite andb_false_r.
    + reflexivity.
    + rewrite length_copy. by eapply numbered_tail.
    + rewrite len_copy. exact Hfull.
    + rewrite len_copy. exact Hlast.
    + exact Hw.
    + simpl in Hf. lia.
    + exists r', w'. split; [rewrite HW; exact Hrun|].
      simpl in Hout, Hinb, Hcl, Hcn, Hbl.
      rewrite Hout, Hinb, Hcl, Hcn, Hbl, Hl, Htid.
      repeat split.
      * rewrite <- app_assoc. f_equal.
        apply (acks_shift (block r) (S (length fulls)) (addr r) Hb).
      * rewrite mod_next. f_equal. simpl length. lia.
Qed.

(** A transfer that goes well.  The request had no options, the peer
    sends the blocks in order from one address, all of them full but the
    last, nothing is lost and the writer takes every block.  [WriteTo]
    acknowledges block 0 and every full block, hands the payloads to the
    writer in order and returns what the writer counted; the last block
    is left for [terminate] to acknowledge.  Block numbers are taken
    modulo 2^16, so the transfer may be longer than 65535 blocks. *)
Theorem WriteTo_transfers_blocks
    (fuel gas : nat) (w0 : W) (r : receiver) (w : world) (c : UDPConn)
    (src : UDPAddr) (fulls : list bytes) (last : bytes) (rest : list event) :
  opts r = None -> block r = 0 -> l r = 0 -> autoTerm r = false ->
  conn r = Some c -> isOpen w = true -> Forall (fun b => b = false) (txfail w) ->
  4 <= len (send r) -> discards r src = false ->
  inbox w = map (Datagram src) (fulls ++ [last]) ++ rest ->
  numbered (length (receive r)) 1 (fulls ++ [last]) ->
  Forall (fun p => len p = len (receive r)) fulls ->
  4 <= len last < len (receive r) ->
  (writes Write w0 0 (map (skipn 4) (fulls ++ [last]))).2 = None ->
  (length (inbox w) < fuel)%nat -> (Z.to_nat (retries r) < gas)%nat ->
  exists r' w',
    WriteTo Write fuel gas w0 r w
    = Ret ((writes Write w0 0 (map (skipn 4) (fulls ++ [last]))).1, None) r' w'
    /\ outbox w'
       = outbox w ++ map (fun i => (wireACK (Z.of_nat i mod 65536), addr r))
                       (seq 0 (S (length fulls)))
    /\ inbox w' = rest /\ closes w' = closes w /\ conn r' = conn r
    /\ block r' = Z.of_nat (S (length fulls)) mod 65536
    /\ l r' = len last /\ tid r' = Port src.
Proof.
  intros Hop Hb Hl Ha Hc Ho Ht Hlen Hdis Hin Hnum Hfull Hlast Hw Hf Hg.
  destruct (header_put (send r) Hlen) as (b0 & H0 & Hhdr & Hlen0).
  destruct gas as [|gas]; [lia|].
  destruct fuel as [|fuel]; [lia|].
  assert (Hf' : (length fulls < fuel)%nat).
  { rewrite Hin, length_app, length_map, length_app in Hf. simpl in Hf. lia. }
  destruct (rounds_blocks src c last rest gas fulls fuel w0 0 (set_send b0 r) w)
    as (r' & w' & Hrun & Hout & Hinb & Hcl & Hcn & Hbl & Hl' & Htid);
    [exact Hc|exact Ho|exact Ht|exact Hhdr|simpl; lia|simpl; lia|exact Ha|exact Hdis
    |exact Hin|simpl; by rewrite Hb|exact Hfull|exact Hlast|exact Hw|exact Hf'|].
  exists r', w'. split.
  - unfold WriteTo. munfold. rewrite Hop, H0. simpl. cbn [WriteTo_loop]. munfold.
    rewrite deliver_nothing by (simpl; lia). exact Hrun.
  - rewrite Hout, Hinb, Hcl, Hcn, Hbl, Hl', Htid. simpl. rewrite Hb.
    repeat split.
Qed.

End Transfer.

Lemma WriteTo_transfers_blocks_witness :
  exists r' w',
    WriteTo sink 4 3 [] (newReceiver None) (freshWorld (map (Datagram peer) upload))
    = Ret (1027, None) r' w'
    /\ outbox w' = [(wireACK 0, peer); (wireACK 1, peer); (wireACK 2, peer)]
    /\ block r' = 3 /\ l r' = 7.
Proof.
  destruct (WriteTo_transfers_blocks sink 4 3 [] (newReceiver None)
              (freshWorld (map (Datagram peer) upload)) theConn peer
              [wireDATA 1 (repeat 1 512); wireDATA 2 (repeat 2 512)]
              (wireDATA 3 [3; 3; 3]) [])
    as (r' & w' & Hrun & Hout & _ & _ & _ & Hbl & Hl & _);
    [reflexivity|reflexivity|reflexivity|reflexivity|reflexivity|reflexivity
    |by constructor|by vm_compute|reflexivity|reflexivity
    | |repeat (constructor; [by vm_compute|]); constructor
    |split; by vm_compute|reflexivity|vm_compute; lia|vm_compute; lia|].
  - intros [|[|[|i]]] p Hp; simpl in Hp; simplify_eq;
      eexists; split; vm_compute; reflexivity.
  - exists r', w'. split; [exact Hrun|]. split; [exact Hout|]. split; [exact Hbl|exact Hl].
Defined.
